(** * ckb-utils: transaction assembly for a cell-based ledger

    A shallow embedding of [src/lib/utils.js] (script predicates, epoch
    arithmetic, fee computation) and of the [TransactionBuilder] with its
    dependency, since and witness resolvers.

    Representation choices, used throughout:
    - a [BI] (arbitrary-precision integer) is a [Z];
    - a hex-encoded quantity that the code only ever reads through [BI.from]
      (capacities, since values) is the [Z] it denotes;
    - a hex-encoded byte string (cell data, witness fields) is the
      [list byte] it denotes;
    - a block number is kept as text, because the code uses it as a [Map]
      key; [undefined] is [None]. *)

From Stdlib Require Import ZArith Lia HexString.
From Stdlib.Strings Require Byte.
From stdpp Require Import base option list gmap strings.

Local Open Scope Z_scope.

(** ** Epoch arithmetic *)

Module Epoch.
Record t := mk { length : Z; index : Z; number : Z }.
End Epoch.

(** [BI.from(epoch)] on the hex text of a header's epoch field. *)
Definition parseEpoch (epoch : string) : Epoch.t :=
  let _epoch := HexString.to_Z epoch in
  {| Epoch.length := Z.land (Z.shiftr _epoch 40) 0xfff;
     Epoch.index := Z.land (Z.shiftr _epoch 24) 0xfff;
     Epoch.number := Z.land _epoch 0xffffff |}.

Definition epochCompare (e0 e1 : Epoch.t) : Z :=
  if Epoch.number e0 <? Epoch.number e1 then -1
  else if Epoch.number e0 >? Epoch.number e1 then 1
  else
    let v0 := Epoch.index e0 * Epoch.length e1 in
    let v1 := Epoch.index e1 * Epoch.length e0 in
    if v0 <? v1 then -1
    else if v0 >? v1 then 1
    else 0.

Definition stringifyEpoch (e : Epoch.t) : string :=
  HexString.of_Z
    (Z.shiftl (Epoch.length e) 40 + Z.shiftl (Epoch.index e) 24 + Epoch.number e).

(** The field ranges of the packed layout that [parseEpoch] reads. *)
Definition epoch_in_range (e : Epoch.t) : Prop :=
  0 <= Epoch.number e < 2 ^ 24 /\
  0 <= Epoch.index e < 2 ^ 12 /\
  0 <= Epoch.length e < 2 ^ 12.

(** ** Fee *)

(** [BI.div] truncates towards zero, hence [Z.quot]. *)
Definition calculateFee (size feeRate : Z) : Z :=
  let ratio := 1000 in
  let base := size * feeRate in
  let fee := Z.quot base ratio in
  if fee * ratio <? base then fee + 1 else fee.

(** ** Data model *)

Abbreviation byte := Byte.byte.

#[global] Instance byte_eq_dec : EqDecision byte := Byte.byte_eq_dec.

Module Script.
Record t := mk { codeHash : string; hashType : string; args : string }.
End Script.

Module OutPoint.
Record t := mk { txHash : string; index : string }.
End OutPoint.

Module CellDep.
Record t := mk { outPoint : OutPoint.t; depType : string }.
End CellDep.

Module CellOutput.
Record t := mk { capacity : Z; lock : Script.t; type : option Script.t }.
End CellOutput.

(** [outPoint] and [blockHash] of a cell are read by none of the functions
    below and are left out. *)
Module Cell.
Record t := mk
  { cellOutput : CellOutput.t; data : list byte; blockNumber : option string }.
End Cell.

Module Header.
Record t := mk { number : string; hash : string; epoch : string; dao : string }.
End Header.

Module WitnessArgs.
Record t := mk
  { lock : option (list byte);
    inputType : option (list byte);
    outputType : option (list byte) }.
End WitnessArgs.

(** The fields of the [TransactionSkeleton] that the builder fills in.
    [inputSinces] is the sparse map from input index to since value. *)
Module TransactionSkeleton.
Record t := mk
  { cellDeps : list CellDep.t;
    headerDeps : list string;
    inputs : list Cell.t;
    outputs : list Cell.t;
    witnesses : list (list byte);
    inputSinces : gmap nat Z }.

Definition empty : t := mk [] [] [] [] [] ∅.

Definition update_cellDeps (f : list CellDep.t → list CellDep.t) (x : t) : t :=
  mk (f (cellDeps x)) (headerDeps x) (inputs x) (outputs x) (witnesses x)
     (inputSinces x).
Definition update_headerDeps (f : list string → list string) (x : t) : t :=
  mk (cellDeps x) (f (headerDeps x)) (inputs x) (outputs x) (witnesses x)
     (inputSinces x).
Definition update_inputs (f : list Cell.t → list Cell.t) (x : t) : t :=
  mk (cellDeps x) (headerDeps x) (f (inputs x)) (outputs x) (witnesses x)
     (inputSinces x).
Definition update_outputs (f : list Cell.t → list Cell.t) (x : t) : t :=
  mk (cellDeps x) (headerDeps x) (inputs x) (f (outputs x)) (witnesses x)
     (inputSinces x).
Definition update_witnesses (f : list (list byte) → list (list byte)) (x : t) : t :=
  mk (cellDeps x) (headerDeps x) (inputs x) (outputs x) (f (witnesses x))
     (inputSinces x).
Definition update_inputSinces (f : gmap nat Z → gmap nat Z) (x : t) : t :=
  mk (cellDeps x) (headerDeps x) (inputs x) (outputs x) (witnesses x)
     (f (inputSinces x)).
End TransactionSkeleton.

(** ** Errors *)

(** One constructor per [throw] site (sites with the same meaning share
    one); [CodecError] is what the fixed-width [Uint64LE] codec raises. *)
Inductive Error :=
| ComparingUndefinedScripts
| MissingBlockNumber
| InsufficientFunds
| NotAWithdrawalCell
| HeaderNotFound
| AlreadyPopulated
| UnresolvedScript
| HeaderDepNotFound
| CodecError.

Inductive result (A : Type) :=
| Ok (a : A)
| Throw (e : Error).
Arguments Ok {A} a.
Arguments Throw {A} e.

#[global] Instance result_ret : MRet result := @Ok.
#[global] Instance result_bind : MBind result := λ A B f r,
  match r with Ok a => f a | Throw e => Throw e end.

(** ** JavaScript containers *)

(** [!v] for an optional string: [undefined] and the empty string are falsy. *)
Definition falsy (v : option string) : bool :=
  match v with
  | None => true
  | Some s => bool_decide (s = EmptyString)
  end.

(** [Set.prototype.add]: insertion order is kept, a present element stays
    where it is. *)
Definition Set_add {A} `{EqDecision A} (x : A) (s : list A) : list A :=
  if decide (x ∈ s) then s else s ++ [x].

(** A [Map] with string keys, in insertion order; [set] on a present key
    replaces the value in place. *)
Definition JsMap (V : Type) : Type := list (string * V).

Fixpoint Map_set {V} (k : string) (v : V) (m : JsMap V) : JsMap V :=
  match m with
  | [] => [(k, v)]
  | (k', v') :: r =>
      if decide (k' = k) then (k', v) :: r else (k', v') :: Map_set k v r
  end.

Fixpoint Map_get {V} (k : string) (m : JsMap V) : option V :=
  match m with
  | [] => None
  | (k', v') :: r => if decide (k' = k) then Some v' else Map_get k r
  end.

Definition Map_values {V} (m : JsMap V) : list V := m.*2.

(** [Array.prototype.findIndex] / [List.findIndex]: -1 when nothing matches. *)
Fixpoint findIndex {A} (p : A → bool) (l : list A) : Z :=
  match l with
  | [] => -1
  | x :: r =>
      if p x then 0
      else let i := findIndex p r in if i =? -1 then -1 else i + 1
  end.

(** [String.prototype.split] on a one-character separator. *)
Fixpoint split (sep : Ascii.ascii) (s : string) : list string :=
  match s with
  | EmptyString => [EmptyString]
  | String c r =>
      if decide (c = sep) then EmptyString :: split sep r
      else match split sep r with
           | h :: t => String c h :: t
           | [] => [String c EmptyString]
           end
  end.

(** The separator of composite script names, ["_"]. *)
Definition underscore : Ascii.ascii := Ascii.ascii_of_nat 95.

(** ** Codecs *)

(** The number that a buffer holds, least significant byte first. *)
Definition littleEndian (buf : list byte) : N :=
  foldr (λ b acc, (Byte.to_N b + 256 * acc)%N) 0%N buf.

(** [Uint64LE.unpack]: exactly eight bytes. *)
Definition Uint64LE_unpack (buf : list byte) : result N :=
  if (length buf =? 8)%nat then Ok (littleEndian buf) else Throw CodecError.

Definition byte_of_N (n : N) : byte :=
  match Byte.of_N (n mod 256) with Some b => b | None => Byte.x00 end.

(** [Uint64LE.pack]: the value must fit 64 bits. *)
Definition Uint64LE_pack (n : Z) : result (list byte) :=
  if (0 <=? n) && (n <? 2 ^ 64)
  then Ok (map (λ i, byte_of_N (Z.to_N n / 256 ^ N.of_nat i)) (seq 0 8))
  else Throw CodecError.

(** [BI.prototype.toHexString]. *)
Definition toHexString (n : N) : string := HexString.of_N n.

(** ** Collaborators

    What the code reaches outside these two files: the node RPC, the script
    registry ([getConfig], [defaultScript], [defaultCellDeps], [isScript]),
    the lumos DAO and capacity helpers and the molecule serialisers. They
    are taken as they are used, as total functions.
    - [rpc_getHeaderByNumber]: what the node answers for a block number
      ([None]: no header);
    - [getConfig_keys]: the property names that [for (… in getConfig())]
      enumerates, in enumeration order;
    - [getConfig_SCRIPTS_has name]: [name in getConfig().SCRIPTS];
    - [defaultCellDeps] also receives the [undefined] that
      [prefix2Name.get(prefix)!] may yield;
    - [Transaction_pack_byteLength]: the byte length of
      [blockchain.Transaction.pack(createTransactionFromSkeleton(tx))]. *)
Class Collaborators := {
  rpc_getHeaderByNumber : option string → option Header.t;
  getConfig_keys : list string;
  getConfig_SCRIPTS_has : string → bool;
  defaultScript : string → Script.t;
  defaultCellDeps : option string → CellDep.t;
  isScript : Script.t → Script.t → bool;
  minimalCellCapacityCompatible : Cell.t → Z;
  calculateMaximumWithdrawCompatible : Cell.t → string → string → Z;
  calculateDaoEarliestSinceCompatible : string → string → Z;
  WitnessArgs_pack : WitnessArgs.t → list byte;
  Transaction_pack_byteLength : TransactionSkeleton.t → Z
}.

(** ** utils.js *)

Definition string_eqb (a b : string) : bool := bool_decide (a = b).

Definition scriptEq (s0 s1 : option Script.t) : result bool :=
  match s0, s1 with
  | None, None => Throw ComparingUndefinedScripts
  | None, Some _ | Some _, None => Ok false
  | Some s0, Some s1 =>
      Ok (string_eqb (Script.codeHash s0) (Script.codeHash s1) &&
          string_eqb (Script.hashType s0) (Script.hashType s1) &&
          string_eqb (Script.args s0) (Script.args s1))
  end.

Definition DAO_DEPOSIT_DATA : list byte := replicate 8 Byte.x00.

Definition data_eqb (a b : list byte) : bool := bool_decide (a = b).

Section Utils.
Context `{Collaborators}.

Definition scriptIs (s0 : Script.t) (name : string) : result bool :=
  let d := defaultScript name in
  scriptEq (Some s0)
    (Some (Script.mk (Script.codeHash d) (Script.hashType d) (Script.args s0))).

Definition isDAODeposit (c : Cell.t) : result bool :=
  b ← scriptEq (CellOutput.type (Cell.cellOutput c)) (Some (defaultScript "DAO"));
  mret (b && data_eqb (Cell.data c) DAO_DEPOSIT_DATA).

Definition isDAOWithdrawal (c : Cell.t) : result bool :=
  b ← scriptEq (CellOutput.type (Cell.cellOutput c)) (Some (defaultScript "DAO"));
  mret (b && negb (data_eqb (Cell.data c) DAO_DEPOSIT_DATA)).

Definition txSize (transaction : TransactionSkeleton.t) : Z :=
  Transaction_pack_byteLength transaction + 4.

End Utils.

(** ** The transaction builder *)

(** [blockNumber2Header]: a [Map] that is only ever read with [get] and
    written with [set]; an entry may hold [undefined] (see
    [getHeaderByNumber]), and a key may be [undefined]. The signer and the
    custom build step are used by [buildAndSend] only and are left out. *)
Module Builder.
Record t := mk
  { accountLock : Script.t;
    blockNumber2Header : gmap (option string) (option Header.t);
    feeRate : Z;
    inputs : list Cell.t;
    outputs : list Cell.t }.

Definition set_blockNumber2Header (m : gmap (option string) (option Header.t))
    (b : t) : t :=
  mk (accountLock b) m (feeRate b) (inputs b) (outputs b).
Definition set_inputs (l : list Cell.t) (b : t) : t :=
  mk (accountLock b) (blockNumber2Header b) (feeRate b) l (outputs b).
Definition set_outputs (l : list Cell.t) (b : t) : t :=
  mk (accountLock b) (blockNumber2Header b) (feeRate b) (inputs b) l.
End Builder.

(** [constructor]; [knownHeaders.map(h => [h.number, h])] fills the cache,
    a later header with the same number replacing an earlier one. *)
Definition Builder_new (accountLock : Script.t) (knownHeaders : list Header.t)
    (feeRate : Z) : Builder.t :=
  Builder.mk accountLock
    (foldl (λ m h, <[Some (Header.number h) := Some h]> m) ∅ knownHeaders)
    feeRate [] [].

(** A method of the builder: it may throw, and what it did to [this] before
    throwing stays done. *)
Definition M (A : Type) : Type := Builder.t → result A * Builder.t.

#[global] Instance M_ret : MRet M := λ A a b, (Ok a, b).
#[global] Instance M_bind : MBind M := λ A B f m b,
  match m b with
  | (Ok a, b') => f a b'
  | (Throw e, b') => (Throw e, b')
  end.

Definition throw {A} (e : Error) : M A := λ b, (Throw e, b).
Definition lift {A} (r : result A) : M A := λ b, (r, b).
Definition this : M Builder.t := λ b, (Ok b, b).
Definition modify (f : Builder.t → Builder.t) : M unit := λ b, (Ok tt, f b).

Inductive Source := input | output.
Inductive Position := start | end_.

Definition add (source : Source) (position : Position) (cells : list Cell.t)
    : M unit :=
  match source with
  | input =>
      modify (λ b, Builder.set_inputs
                     match position with
                     | start => cells ++ Builder.inputs b
                     | end_ => Builder.inputs b ++ cells
                     end b);;
      b ← this;
      if existsb (λ c, falsy (Cell.blockNumber c)) (Builder.inputs b)
      then throw MissingBlockNumber
      else mret ()
  | output =>
      modify (λ b, Builder.set_outputs
                     match position with
                     | start => cells ++ Builder.outputs b
                     | end_ => Builder.outputs b ++ cells
                     end b)
  end.

Section Builder.
Context `{Collaborators}.

(** The entry is written before it is checked, so a miss leaves an
    [undefined] entry behind; [get] then reads it as a miss again. *)
Definition getHeaderByNumber (blockNumber : option string) : M Header.t :=
  b ← this;
  match mjoin (Builder.blockNumber2Header b !! blockNumber) with
  | Some header => mret header
  | None =>
      let header := rpc_getHeaderByNumber blockNumber in
      modify (λ b, Builder.set_blockNumber2Header
                     (<[blockNumber := header]> (Builder.blockNumber2Header b)) b);;
      match header with
      | Some header => mret header
      | None => throw HeaderNotFound
      end
  end.

(** The closure [getBlockHash] of [buildWithChange]. *)
Definition getBlockHash (blockNumber : string) : M string :=
  header ← getHeaderByNumber (Some blockNumber);
  mret (Header.hash header).

Fixpoint getCkbDelta_inputs (cs : list Cell.t) (ckbDelta : Z) : M Z :=
  match cs with
  | [] => mret ckbDelta
  | c :: cs =>
      isDeposit ← lift (isDAODeposit c);
      if isDeposit : bool then
        n ← lift (Uint64LE_unpack (Cell.data c));
        depositHeader ← getHeaderByNumber (Some (toHexString n));
        withdrawalHeader ← getHeaderByNumber (Cell.blockNumber c);
        let maxWithdrawable :=
          calculateMaximumWithdrawCompatible c (Header.dao depositHeader)
            (Header.dao withdrawalHeader) in
        getCkbDelta_inputs cs (ckbDelta + maxWithdrawable)
      else
        getCkbDelta_inputs cs (ckbDelta + CellOutput.capacity (Cell.cellOutput c))
  end.

Definition getCkbDelta : M Z :=
  b ← this;
  ckbDelta ← getCkbDelta_inputs (Builder.inputs b) 0;
  b ← this;
  mret (foldl (λ ckbDelta c, ckbDelta - CellOutput.capacity (Cell.cellOutput c))
          ckbDelta (Builder.outputs b)).

Definition withdrawedDaoSince (c : Cell.t) : M Z :=
  isWithdrawal ← lift (isDAOWithdrawal c);
  if negb isWithdrawal then throw NotAWithdrawalCell
  else
    withdrawalHeader ← getHeaderByNumber (Cell.blockNumber c);
    n ← lift (Uint64LE_unpack (Cell.data c));
    depositHeader ← getHeaderByNumber (Some (toHexString n));
    mret (calculateDaoEarliestSinceCompatible (Header.epoch depositHeader)
            (Header.epoch withdrawalHeader)).

(** *** addCellDeps *)

Definition serializeScript (s : Script.t) : string :=
  Script.codeHash s +:+ "-" +:+ Script.hashType s.

Definition serializeCellDep (d : CellDep.t) : string :=
  OutPoint.txHash (CellDep.outPoint d) +:+ "-" +:+
  OutPoint.index (CellDep.outPoint d) +:+ "-" +:+ CellDep.depType d.

Definition prefix2Name : JsMap string :=
  foldl (λ m scriptName,
           Map_set (hd EmptyString (split underscore scriptName)) scriptName m)
    [] getConfig_keys.

Definition serializedScript2CellDeps : JsMap (list CellDep.t) :=
  foldl (λ m scriptName,
           let s := defaultScript scriptName in
           let cellDeps :=
             map (λ prefix, defaultCellDeps (Map_get prefix prefix2Name))
                 (split underscore scriptName) in
           Map_set (serializeScript s) cellDeps m)
    [] getConfig_keys.

(** The scripts of a skeleton in the order the resolver visits them: the
    lock of every input, then the type, where there is one, of every output
    and of every input. *)
Definition collectScripts (transaction : TransactionSkeleton.t) : list Script.t :=
  map (λ c, CellOutput.lock (Cell.cellOutput c)) (TransactionSkeleton.inputs transaction)
  ++ omap (λ c, CellOutput.type (Cell.cellOutput c))
       (TransactionSkeleton.outputs transaction ++ TransactionSkeleton.inputs transaction).

Fixpoint addCellDeps_scripts (scripts : list Script.t)
    (serializedCellDep2CellDep : JsMap CellDep.t) : result (JsMap CellDep.t) :=
  match scripts with
  | [] => Ok serializedCellDep2CellDep
  | script :: scripts =>
      match Map_get (serializeScript script) serializedScript2CellDeps with
      | None => Throw UnresolvedScript
      | Some cellDeps =>
          addCellDeps_scripts scripts
            (foldl (λ m cellDep, Map_set (serializeCellDep cellDep) cellDep m)
               serializedCellDep2CellDep cellDeps)
      end
  end.

Definition addCellDeps (transaction : TransactionSkeleton.t)
    : result TransactionSkeleton.t :=
  if negb (length (TransactionSkeleton.cellDeps transaction) =? 0)%nat
  then Throw AlreadyPopulated
  else
    serializedCellDep2CellDep ← addCellDeps_scripts (collectScripts transaction) [];
    mret (TransactionSkeleton.update_cellDeps
            (λ cellDeps, cellDeps ++ Map_values serializedCellDep2CellDep)
            transaction).

(** *** addHeaderDeps *)

(** Past the check, [c.blockNumber] is a non-empty string. *)
Fixpoint addHeaderDeps_inputs (blockNumber2BlockHash : string → M string)
    (cs : list Cell.t) (uniqueBlockHashes : list string) : M (list string) :=
  match cs with
  | [] => mret uniqueBlockHashes
  | c :: cs =>
      if falsy (Cell.blockNumber c) then throw MissingBlockNumber
      else
        let blockNumber := default EmptyString (Cell.blockNumber c) in
        isDeposit ← lift (isDAODeposit c);
        if isDeposit : bool then
          h ← blockNumber2BlockHash blockNumber;
          addHeaderDeps_inputs blockNumber2BlockHash cs (Set_add h uniqueBlockHashes)
        else
          isWithdrawal ← lift (isDAOWithdrawal c);
          if isWithdrawal : bool then
            h ← blockNumber2BlockHash blockNumber;
            let uniqueBlockHashes := Set_add h uniqueBlockHashes in
            n ← lift (Uint64LE_unpack (Cell.data c));
            h' ← blockNumber2BlockHash (toHexString n);
            addHeaderDeps_inputs blockNumber2BlockHash cs
              (Set_add h' uniqueBlockHashes)
          else addHeaderDeps_inputs blockNumber2BlockHash cs uniqueBlockHashes
  end.

Definition addHeaderDeps (transaction : TransactionSkeleton.t)
    (blockNumber2BlockHash : string → M string) : M TransactionSkeleton.t :=
  if negb (length (TransactionSkeleton.headerDeps transaction) =? 0)%nat
  then throw AlreadyPopulated
  else
    uniqueBlockHashes ←
      addHeaderDeps_inputs blockNumber2BlockHash
        (TransactionSkeleton.inputs transaction) [];
    mret (TransactionSkeleton.update_headerDeps (λ h, h ++ uniqueBlockHashes)
            transaction).

(** *** addInputSinces *)

Fixpoint addInputSinces_entries (withdrawedDaoSince : Cell.t → M Z)
    (entries : list (nat * Cell.t)) (transaction : TransactionSkeleton.t)
    : M TransactionSkeleton.t :=
  match entries with
  | [] => mret transaction
  | (index, c) :: entries =>
      isWithdrawal ← lift (isDAOWithdrawal c);
      if isWithdrawal : bool then
        since ← withdrawedDaoSince c;
        addInputSinces_entries withdrawedDaoSince entries
          (TransactionSkeleton.update_inputSinces (λ inputSinces,
             <[index := since]> inputSinces) transaction)
      else addInputSinces_entries withdrawedDaoSince entries transaction
  end.

Definition addInputSinces (transaction : TransactionSkeleton.t)
    (withdrawedDaoSince : Cell.t → M Z) : M TransactionSkeleton.t :=
  if negb (size (TransactionSkeleton.inputSinces transaction) =? 0)%nat
  then throw AlreadyPopulated
  else
    addInputSinces_entries withdrawedDaoSince
      (imap pair (TransactionSkeleton.inputs transaction)) transaction.

(** *** addWitnessPlaceholders *)

(** ["0x" + "00".repeat(65)] *)
Definition signaturePlaceholder : list byte := replicate 65 Byte.x00.

Fixpoint addWitnessPlaceholders_inputs (accountLock : Script.t)
    (blockNumber2BlockHash : string → M string) (cs : list Cell.t)
    (paddingCountDown : nat) (transaction : TransactionSkeleton.t)
    : M TransactionSkeleton.t :=
  match cs with
  | [] => mret transaction
  | c :: cs =>
      pad ← lift (if (0 <? paddingCountDown)%nat
                  then scriptEq (Some (CellOutput.lock (Cell.cellOutput c)))
                         (Some accountLock)
                  else Ok false);
      let lock := if pad : bool then signaturePlaceholder else [] in
      let paddingCountDown :=
        if pad then (paddingCountDown - 1)%nat else paddingCountDown in
      isDeposit ← lift (isDAODeposit c);
      inputType ←
        (if isDeposit : bool then
           n ← lift (Uint64LE_unpack (Cell.data c));
           blockHash ← blockNumber2BlockHash (toHexString n);
           let headerDepIndex :=
             findIndex (λ v, string_eqb v blockHash)
               (TransactionSkeleton.headerDeps transaction) in
           if headerDepIndex =? -1 then throw HeaderDepNotFound
           else
             packed ← lift (Uint64LE_pack headerDepIndex);
             mret (Some packed)
         else mret None);
      let packedWitness :=
        WitnessArgs_pack (WitnessArgs.mk (Some lock) inputType None) in
      addWitnessPlaceholders_inputs accountLock blockNumber2BlockHash cs
        paddingCountDown
        (TransactionSkeleton.update_witnesses (λ w, w ++ [packedWitness])
           transaction)
  end.

Definition addWitnessPlaceholders (transaction : TransactionSkeleton.t)
    (accountLock : Script.t) (blockNumber2BlockHash : string → M string)
    : M TransactionSkeleton.t :=
  if negb (length (TransactionSkeleton.witnesses transaction) =? 0)%nat
  then throw AlreadyPopulated
  else
    let paddingCountDown :=
      if getConfig_SCRIPTS_has "PWLOCK" &&
         isScript accountLock (defaultScript "PWLOCK")
      then length (TransactionSkeleton.inputs transaction)
      else 1%nat in
    addWitnessPlaceholders_inputs accountLock blockNumber2BlockHash
      (TransactionSkeleton.inputs transaction) paddingCountDown transaction.

(** *** buildWithChange, toTransactionSkeleton *)

Definition changeCell (accountLock : Script.t) (ckbDelta : Z) : Cell.t :=
  Cell.mk (CellOutput.mk ckbDelta accountLock None) [] None.

Definition buildWithChange (ckbDelta : Z) : M TransactionSkeleton.t :=
  b ← this;
  changeCells ←
    (if ckbDelta =? 0 then mret []
     else
       let changeCell := changeCell (Builder.accountLock b) ckbDelta in
       let minimalCapacity := minimalCellCapacityCompatible changeCell in
       if ckbDelta >=? minimalCapacity then mret [changeCell]
       else throw InsufficientFunds);
  let transaction := TransactionSkeleton.empty in
  let transaction :=
    TransactionSkeleton.update_inputs (λ i, i ++ Builder.inputs b) transaction in
  let transaction :=
    TransactionSkeleton.update_outputs
      (λ o, o ++ (Builder.outputs b ++ changeCells)) transaction in
  transaction ← lift (addCellDeps transaction);
  transaction ← addHeaderDeps transaction getBlockHash;
  transaction ← addInputSinces transaction withdrawedDaoSince;
  transaction ← addWitnessPlaceholders transaction (Builder.accountLock b)
                  getBlockHash;
  mret transaction.

Definition toTransactionSkeleton : M (TransactionSkeleton.t * Z) :=
  ckbDelta ← getCkbDelta;
  provisional ← buildWithChange ckbDelta;
  b ← this;
  let fee := calculateFee (txSize provisional) (Builder.feeRate b) in
  transaction ← buildWithChange (ckbDelta - fee);
  mret (transaction, fee).

End Builder.

(** ** Reading the model

    The definitions below are not in the source; they name what the
    theorems talk about. *)

(** The first occurrence of each element, in order. *)
Fixpoint first_occurrences_from {A} `{EqDecision A} (seen l : list A) : list A :=
  match l with
  | [] => []
  | x :: l =>
      if decide (x ∈ seen) then first_occurrences_from seen l
      else x :: first_occurrences_from (x :: seen) l
  end.

Definition first_occurrences {A} `{EqDecision A} (l : list A) : list A :=
  first_occurrences_from [] l.

(** The classification of a cell by its type script and payload. *)
Inductive CellKind := Ordinary | MaturityDeposit | MaturityWithdrawal.

#[global] Instance Script_eq_dec : EqDecision Script.t.
Proof. solve_decision. Defined.
#[global] Instance OutPoint_eq_dec : EqDecision OutPoint.t.
Proof. solve_decision. Defined.
#[global] Instance CellDep_eq_dec : EqDecision CellDep.t.
Proof. solve_decision. Defined.
#[global] Instance CellKind_eq_dec : EqDecision CellKind.
Proof. solve_decision. Defined.

Section Reading.
Context `{Collaborators}.

Definition kind (c : Cell.t) : CellKind :=
  if decide (CellOutput.type (Cell.cellOutput c) = Some (defaultScript "DAO"))
  then if decide (Cell.data c = DAO_DEPOSIT_DATA)
       then MaturityDeposit else MaturityWithdrawal
  else Ordinary.

(** The header [getHeaderByNumber] finds from a builder state: the cached
    one, else the node's. *)
Definition resolve (b : Builder.t) (blockNumber : option string)
    : option Header.t :=
  match mjoin (Builder.blockNumber2Header b !! blockNumber) with
  | Some header => Some header
  | None => rpc_getHeaderByNumber blockNumber
  end.

Definition resolveHeader (b : Builder.t) (blockNumber : option string)
    : result Header.t :=
  match resolve b blockNumber with
  | Some header => Ok header
  | None => Throw HeaderNotFound
  end.

Definition resolveHash (b : Builder.t) (blockNumber : string) : result string :=
  header ← resolveHeader b (Some blockNumber); mret (Header.hash header).

(** [b'] is [b] with more headers cached, none of which changes what a
    block number resolves to. *)
Definition cache_filled (b b' : Builder.t) : Prop :=
  Builder.accountLock b' = Builder.accountLock b ∧
  Builder.feeRate b' = Builder.feeRate b ∧
  Builder.inputs b' = Builder.inputs b ∧
  Builder.outputs b' = Builder.outputs b ∧
  ∀ k, resolve b' k = resolve b k.

(** The callback [cb], run in any state that [b] was filled to, returns
    [f k] and only fills the cache further. *)
Definition answers {K V} (b : Builder.t) (cb : K → M V) (f : K → result V)
    : Prop :=
  ∀ k b1, cache_filled b b1 →
    ∃ b2, cb k b1 = (f k, b2) ∧ cache_filled b b2.

Definition total (l : list Z) : Z := foldr Z.add 0 l.

(** What an input counts for in [getCkbDelta], from the headers that the
    builder state [b] resolves: for a maturity deposit, the maximum
    withdrawable amount computed from the header whose number is decoded
    from the payload ("deposit header") and the header of the cell's own
    block ("withdrawal header"); else the stated capacity. *)
Definition effectiveCapacity (b : Builder.t) (c : Cell.t) : result Z :=
  match kind c with
  | MaturityDeposit =>
      n ← Uint64LE_unpack (Cell.data c);
      depositHeader ← resolveHeader b (Some (toHexString n));
      withdrawalHeader ← resolveHeader b (Cell.blockNumber c);
      mret (calculateMaximumWithdrawCompatible c (Header.dao depositHeader)
              (Header.dao withdrawalHeader))
  | _ => mret (CellOutput.capacity (Cell.cellOutput c))
  end.

(** The block hashes that an input asks for, when block [n] has hash
    [hashOf n]. *)
Definition blockHashes (hashOf : string → string) (c : Cell.t) : list string :=
  let own := hashOf (default EmptyString (Cell.blockNumber c)) in
  match kind c with
  | Ordinary => []
  | MaturityDeposit => [own]
  | MaturityWithdrawal => [own; hashOf (toHexString (littleEndian (Cell.data c)))]
  end.

(** The same when looking a hash up may fail, with the checks in the order
    in which [addHeaderDeps] makes them. *)
Definition headerContribution (f : string → result string) (c : Cell.t)
    : result (list string) :=
  if falsy (Cell.blockNumber c) then Throw MissingBlockNumber
  else
    let blockNumber := default EmptyString (Cell.blockNumber c) in
    match kind c with
    | Ordinary => mret []
    | MaturityDeposit => h ← f blockNumber; mret [h]
    | MaturityWithdrawal =>
        h ← f blockNumber;
        n ← Uint64LE_unpack (Cell.data c);
        h' ← f (toHexString n);
        mret [h; h']
    end.

(** The [inputType] field that [addWitnessPlaceholders] builds for an
    input. *)
Definition inputTypeFor (f : string → result string) (headerDeps : list string)
    (c : Cell.t) : result (option (list byte)) :=
  match kind c with
  | MaturityDeposit =>
      n ← Uint64LE_unpack (Cell.data c);
      blockHash ← f (toHexString n);
      let headerDepIndex := findIndex (λ v, string_eqb v blockHash) headerDeps in
      if headerDepIndex =? -1 then Throw HeaderDepNotFound
      else packed ← Uint64LE_pack headerDepIndex; mret (Some packed)
  | _ => mret None
  end.

Definition owns (accountLock : Script.t) (c : Cell.t) : bool :=
  bool_decide (CellOutput.lock (Cell.cellOutput c) = accountLock).

(** The inputs that get the signature placeholder when the count-down
    starts at [paddingCountDown]. *)
Fixpoint padFlags (accountLock : Script.t) (paddingCountDown : nat)
    (cs : list Cell.t) : list bool :=
  match cs with
  | [] => []
  | c :: cs =>
      let pad := (0 <? paddingCountDown)%nat && owns accountLock c in
      pad :: padFlags accountLock
               (if pad then (paddingCountDown - 1)%nat else paddingCountDown) cs
  end.

(** The account lock is of the kind that is padded at every occurrence. *)
Definition placeholderPerOccurrence (accountLock : Script.t) : bool :=
  getConfig_SCRIPTS_has "PWLOCK" && isScript accountLock (defaultScript "PWLOCK").


Definition witnessArgsFor (pad : bool) (inputType : option (list byte))
    : WitnessArgs.t :=
  WitnessArgs.mk (Some (if pad then signaturePlaceholder else [])) inputType None.

(** The dependency set known for a script. *)
Definition requiredCellDeps (s : Script.t) : option (list CellDep.t) :=
  Map_get (serializeScript s) serializedScript2CellDeps.

Definition resolveScript (s : Script.t) : result (list CellDep.t) :=
  match requiredCellDeps s with
  | Some cellDeps => Ok cellDeps
  | None => Throw UnresolvedScript
  end.

End Reading.

(** Hashes and indices are hex text: no dash in them. *)
Fixpoint dash_free (s : string) : bool :=
  match s with
  | EmptyString => true
  | String c s => negb (bool_decide (c = Ascii.ascii_of_nat 45)) && dash_free s
  end.

Definition hex_CellDep (d : CellDep.t) : bool :=
  dash_free (OutPoint.txHash (CellDep.outPoint d)) &&
  dash_free (OutPoint.index (CellDep.outPoint d)).

(** Every dependency in the registry is written in hex. *)
Definition registry_hex `{Collaborators} : bool :=
  forallb (λ e, forallb hex_CellDep e.2) serializedScript2CellDeps.

(** A method that cannot return normally. *)
Definition never_returns {A} (m : M A) : Prop :=
  ∀ b a b', m b ≠ (Ok a, b').


(** A map of cell dependencies in which every key is the serialisation of
    its value, all of them in hex. *)
Definition keyed (m : JsMap CellDep.t) : Prop :=
  Forall (λ e, e.1 = serializeCellDep e.2 ∧ hex_CellDep e.2 = true) m.

(** A stage hands the cells on as it got them. *)
Definition same_cells (t t' : TransactionSkeleton.t) : Prop :=
  TransactionSkeleton.inputs t' = TransactionSkeleton.inputs t ∧
  TransactionSkeleton.outputs t' = TransactionSkeleton.outputs t.

(** ** A small registry and chain for the examples *)

Module Demo.

Definition Uint32LE (n : N) : list byte :=
  map (λ i, byte_of_N (n / 256 ^ N.of_nat i)) (seq 0 4).

Definition bytesOpt (o : option (list byte)) : list byte :=
  match o with
  | None => []
  | Some b => Uint32LE (N.of_nat (length b)) ++ b
  end.

(** The molecule table layout of [WitnessArgs]: total size, three field
    offsets, then the fields. *)
Definition packWitnessArgs (w : WitnessArgs.t) : list byte :=
  let f1 := bytesOpt (WitnessArgs.lock w) in
  let f2 := bytesOpt (WitnessArgs.inputType w) in
  let f3 := bytesOpt (WitnessArgs.outputType w) in
  let o1 := 16%N in
  let o2 := (o1 + N.of_nat (length f1))%N in
  let o3 := (o2 + N.of_nat (length f2))%N in
  Uint32LE (o3 + N.of_nat (length f3)) ++ Uint32LE o1 ++ Uint32LE o2
    ++ Uint32LE o3 ++ f1 ++ f2 ++ f3.

Definition scriptOf (name : string) : Script.t :=
  if decide (name = "SECP256K1") then Script.mk "0x9bd7" "type" "0x"
  else if decide (name = "DAO") then Script.mk "0x82d7" "type" "0x"
  else if decide (name = "PWLOCK") then Script.mk "0xbf43" "type" "0x"
  else if decide (name = "LIMIT_DAO") then Script.mk "0x5e7a" "data1" "0x"
  else Script.mk "0x0000" "data" "0x".

Definition cellDepOf (name : option string) : CellDep.t :=
  match name with
  | Some name =>
      if decide (name = "SECP256K1")
      then CellDep.mk (OutPoint.mk "0x71a7" "0x0") "depGroup"
      else if decide (name = "DAO")
      then CellDep.mk (OutPoint.mk "0xe2fb" "0x2") "code"
      else if decide (name = "PWLOCK")
      then CellDep.mk (OutPoint.mk "0x57a6" "0x0") "code"
      else if decide (name = "LIMIT_DAO")
      then CellDep.mk (OutPoint.mk "0xc0de" "0x1") "code"
      else CellDep.mk (OutPoint.mk "0x0000" "0x0") "code"
  | None => CellDep.mk (OutPoint.mk "0x0000" "0x0") "code"
  end.

(** Every block exists; block [n] has hash ["#" ++ n]. *)
Definition headerOf (blockNumber : option string) : option Header.t :=
  match blockNumber with
  | Some n => Some (Header.mk n ("#" +:+ n) "0x0" "0x")
  | None => None
  end.

#[local] Instance collaborators : Collaborators := {|
  rpc_getHeaderByNumber := headerOf;
  getConfig_keys := ["SECP256K1"; "DAO"; "PWLOCK"; "LIMIT_DAO"];
  getConfig_SCRIPTS_has := λ name,
    bool_decide (name ∈ ["SECP256K1"; "DAO"; "PWLOCK"; "LIMIT_DAO"]);
  defaultScript := scriptOf;
  defaultCellDeps := cellDepOf;
  isScript := λ s0 s1,
    string_eqb (Script.codeHash s0) (Script.codeHash s1) &&
    string_eqb (Script.hashType s0) (Script.hashType s1);
  minimalCellCapacityCompatible := λ _, 6100000000;
  calculateMaximumWithdrawCompatible := λ c _ _,
    CellOutput.capacity (Cell.cellOutput c) + 1000;
  calculateDaoEarliestSinceCompatible := λ _ _, 0x2000000000000000;
  WitnessArgs_pack := packWitnessArgs;
  Transaction_pack_byteLength := λ _, 396
|}.

Definition alice : Script.t := Script.mk "0x9bd7" "type" "0xa11ce".
Definition bob : Script.t := Script.mk "0x9bd7" "type" "0xb0b".
Definition pwAlice : Script.t := Script.mk "0xbf43" "type" "0xa11ce".

Definition plainCell (capacity : Z) (lock : Script.t) (blockNumber : option string)
    : Cell.t :=
  Cell.mk (CellOutput.mk capacity lock None) [] blockNumber.

Definition daoCell (capacity : Z) (lock : Script.t) (data : list byte)
    (blockNumber : option string) : Cell.t :=
  Cell.mk (CellOutput.mk capacity lock (Some (scriptOf "DAO"))) data blockNumber.

(** A deposit made in block 5, and its withdrawal request made in block 7. *)
Definition deposit5 : Cell.t :=
  daoCell 20000000000 alice DAO_DEPOSIT_DATA (Some "0x5").
Definition withdrawal7 : Cell.t :=
  daoCell 20000000000 alice
    (Byte.x05 :: replicate 7 Byte.x00) (Some "0x7").

Definition builder (inputs outputs : list Cell.t) : Builder.t :=
  Builder.set_outputs outputs
    (Builder.set_inputs inputs (Builder_new alice [] 1000)).

Definition skeleton (inputs outputs : list Cell.t) : TransactionSkeleton.t :=
  TransactionSkeleton.update_outputs (λ o, o ++ outputs)
    (TransactionSkeleton.update_inputs (λ i, i ++ inputs) TransactionSkeleton.empty).

Definition hashOf (blockNumber : string) : string := "#" +:+ blockNumber.

(** A deposit made in the genesis block. *)
Definition deposit0 : Cell.t :=
  daoCell 30000000000 alice DAO_DEPOSIT_DATA (Some "0x0").

(** An output whose type script needs two dependencies, one of them the
    DAO's. *)
Definition limitCell : Cell.t :=
  Cell.mk (CellOutput.mk 15000000000 bob (Some (scriptOf "LIMIT_DAO"))) [] None.

End Demo.

(** * The rest of the library

    Submission to the node, and the names used to state what the builder's
    remaining methods do. *)

(** ** Submission *)

(** What [sendTransaction] throws: the node refuses the transaction, the
    node reports a state other than pending, proposed or committed, or the
    polls run out. *)
Inductive SendError :=
| SubmissionRejected
| UnexpectedTransactionState (status : string)
| TransactionTimedOut.

(** The two calls made on the node. [getTransaction txHash i] is the
    [txStatus.status] that the node reports to the poll number [i] (from
    0); [sendTransaction] answers the transaction hash, or refuses. *)
Module RPC.
Record t (Transaction : Type) := mk
  { sendTransaction : Transaction → option string;
    getTransaction : string → nat → string }.
Arguments mk {Transaction}.
Arguments sendTransaction {Transaction}.
Arguments getTransaction {Transaction}.
End RPC.

(** The polling loop, [rounds] iterations from iteration [i] on. Beside the
    outcome it returns how many times [rpc.getTransaction] was called. The
    one-second sleep between polls is not modelled. *)
Fixpoint sendTransaction_poll {Transaction} (rpc : RPC.t Transaction)
    (txHash : string) (rounds i : nat) : (SendError + string) * nat :=
  match rounds with
  | O => (inl TransactionTimedOut, i)
  | S rounds =>
      let status := RPC.getTransaction rpc txHash i in
      if decide (status = "committed") then (inr txHash, S i)
      else if decide (status = "pending" ∨ status = "proposed")
      then sendTransaction_poll rpc txHash rounds (S i)
      else (inl (UnexpectedTransactionState status), S i)
  end.

(** [secondsTimeout] is taken as an integer: the loop
    [for (i = 0; i < secondsTimeout; i++)] then runs [secondsTimeout]
    times, and not at all when it is zero or negative. *)
Definition sendTransaction {Transaction} (signedTransaction : Transaction)
    (rpc : RPC.t Transaction) (secondsTimeout : Z) : (SendError + string) * nat :=
  match RPC.sendTransaction rpc signedTransaction with
  | None => (inl SubmissionRejected, 0%nat)
  | Some txHash => sendTransaction_poll rpc txHash (Z.to_nat secondsTimeout) 0
  end.

(** The node has not settled the transaction yet. *)
Definition waiting (status : string) : Prop :=
  status = "pending" ∨ status = "proposed".

(** ** Reading the rest of the builder *)

Section ReadingMore.
Context `{Collaborators}.

(** What [withdrawedDaoSince] computes for a maturity withdrawal, from the
    headers that the builder state [b] resolves: first the header of the
    cell's own block, then the header whose number the payload holds. *)
Definition earliestSince (b : Builder.t) (c : Cell.t) : result Z :=
  withdrawalHeader ← resolveHeader b (Cell.blockNumber c);
  n ← Uint64LE_unpack (Cell.data c);
  depositHeader ← resolveHeader b (Some (toHexString n));
  mret (calculateDaoEarliestSinceCompatible (Header.epoch depositHeader)
          (Header.epoch withdrawalHeader)).

Definition withdrawedDaoSince_result (b : Builder.t) (c : Cell.t) : result Z :=
  match kind c with
  | MaturityWithdrawal => earliestSince b c
  | _ => Throw NotAWithdrawalCell
  end.

(** The since value that [addInputSinces] records for an input, if any. *)
Definition sinceOf (b : Builder.t) (c : Cell.t) : result (option Z) :=
  match kind c with
  | MaturityWithdrawal => since ← earliestSince b c; mret (Some since)
  | _ => mret None
  end.



End ReadingMore.

Definition capacityOf (c : Cell.t) : Z := CellOutput.capacity (Cell.cellOutput c).

(** Every cell carries a block number. *)
Definition all_numbered (cs : list Cell.t) : Prop :=
  Forall (λ c, falsy (Cell.blockNumber c) = false) cs.

(** From every state that [b] was filled to, [m] gives the result [r] and
    only fills the cache further. *)
Definition gives {A} `{Collaborators} (b : Builder.t) (m : M A) (r : result A)
    : Prop :=
  ∀ b1, cache_filled b b1 → ∃ b2, m b1 = (r, b2) ∧ cache_filled b b2.

(** The errors that can come out of [buildWithChange]. *)
Definition build_error (e : Error) : Prop :=
  e = InsufficientFunds ∨ e = UnresolvedScript ∨ e = MissingBlockNumber ∨
  e = HeaderNotFound ∨ e = CodecError ∨ e = HeaderDepNotFound.

(** A map of cell dependencies in which every key is the serialisation of
    its value and no key occurs twice. *)
Definition well_keyed (m : JsMap CellDep.t) : Prop :=
  Forall (λ e, e.1 = serializeCellDep e.2) m ∧ NoDup m.*1.

(** What [addInputSinces] writes for the inputs from position [index] on,
    given the since value of each, if any. *)
Fixpoint record_sinces (index : nat) (sinces : list (option Z))
    (inputSinces : gmap nat Z) : gmap nat Z :=
  match sinces with
  | [] => inputSinces
  | since :: sinces =>
      record_sinces (S index) sinces
        match since with
        | Some since => <[index := since]> inputSinces
        | None => inputSinces
        end
  end.

(** The outcome of the four resolvers run one after the other on a
    skeleton, as a function of the account lock and of what the builder's
    block numbers resolve to. *)
Definition resolvers_result `{Collaborators} (b : Builder.t)
    (transaction : TransactionSkeleton.t) : result TransactionSkeleton.t :=
  transaction ← addCellDeps transaction;
  hashes ← mapM (headerContribution (resolveHash b))
             (TransactionSkeleton.inputs transaction);
  let transaction :=
    TransactionSkeleton.update_headerDeps
      (λ _, first_occurrences (concat hashes)) transaction in
  sinces ← mapM (sinceOf b) (TransactionSkeleton.inputs transaction);
  let transaction :=
    TransactionSkeleton.update_inputSinces (record_sinces 0 sinces) transaction in
  inputTypes ← mapM (inputTypeFor (resolveHash b)
                       (TransactionSkeleton.headerDeps transaction))
                 (TransactionSkeleton.inputs transaction);
  mret (TransactionSkeleton.update_witnesses
          (λ w, w ++ map WitnessArgs_pack
                   (zip_with witnessArgsFor
                      (padFlags (Builder.accountLock b)
                         (if placeholderPerOccurrence (Builder.accountLock b)
                          then length (TransactionSkeleton.inputs transaction)
                          else 1%nat)
                         (TransactionSkeleton.inputs transaction))
                      inputTypes))
          transaction).

(** The change cells that [buildWithChange] adds for a delta. *)
Definition changeCells_result `{Collaborators} (b : Builder.t) (ckbDelta : Z)
    : result (list Cell.t) :=
  if ckbDelta =? 0 then Ok []
  else if ckbDelta >=?
            minimalCellCapacityCompatible
              (changeCell (Builder.accountLock b) ckbDelta)
  then Ok [changeCell (Builder.accountLock b) ckbDelta]
  else Throw InsufficientFunds.

(** The outcome of [buildWithChange] as a function of the builder's lock,
    inputs and outputs and of what its block numbers resolve to. *)
Definition buildWithChange_result `{Collaborators} (b : Builder.t) (ckbDelta : Z)
    : result TransactionSkeleton.t :=
  changeCells ← changeCells_result b ckbDelta;
  resolvers_result b
    (TransactionSkeleton.update_outputs
       (λ o, o ++ (Builder.outputs b ++ changeCells))
       (TransactionSkeleton.update_inputs (λ i, i ++ Builder.inputs b)
          TransactionSkeleton.empty)).

(** A node that accepts every transaction under the hash [0xabc] and
    reports the given statuses poll after poll, then pending for ever. *)
Definition scriptedNode (statuses : list string) : RPC.t unit :=
  RPC.mk (λ _, Some "0xabc") (λ _ i, nth i statuses "pending").

(** * Proofs *)

Set Warnings "-clear-no-such-hyp".

(** Decides the tests on the kind of a cell once the kind is known. *)
Ltac decide_kind :=
  repeat first
    [ rewrite bool_decide_eq_true_2 by done
    | rewrite bool_decide_eq_false_2 by done ];
  cbv iota.

(** * Epoch arithmetic *)

Section EpochOrder.

Lemma epochCompare_cases (a b : Epoch.t) :
  (epochCompare a b = -1 ∧
     (Epoch.number a < Epoch.number b ∨
      Epoch.number a = Epoch.number b ∧
      Epoch.index a * Epoch.length b < Epoch.index b * Epoch.length a)) ∨
  (epochCompare a b = 1 ∧
     (Epoch.number b < Epoch.number a ∨
      Epoch.number a = Epoch.number b ∧
      Epoch.index b * Epoch.length a < Epoch.index a * Epoch.length b)) ∨
  (epochCompare a b = 0 ∧
     Epoch.number a = Epoch.number b ∧
     Epoch.index a * Epoch.length b = Epoch.index b * Epoch.length a).
Proof.
  unfold epochCompare. rewrite !Z.gtb_ltb.
  repeat match goal with
         | |- context [?x <? ?y] => destruct (Z.ltb_spec x y)
         end; lia.
Qed.




Lemma parseEpoch_in_range (s : string) : epoch_in_range (parseEpoch s).
Proof.
  unfold epoch_in_range, parseEpoch; simpl.
  change 0xfff with (Z.ones 12). change 0xffffff with (Z.ones 24).
  rewrite !Z.land_ones by lia.
  repeat split; apply Z.mod_pos_bound; lia.
Qed.

Lemma parse_stringify (e : Epoch.t) :
  epoch_in_range e → parseEpoch (stringifyEpoch e) = e.
Proof.
  destruct e as [l i n]. unfold epoch_in_range, parseEpoch, stringifyEpoch; simpl.
  intros (Hn & Hi & Hl). rewrite HexString.to_Z_of_Z.
  change 0xfff with (Z.ones 12). change 0xffffff with (Z.ones 24).
  rewrite !Z.land_ones, !Z.shiftr_div_pow2, !Z.shiftl_mul_pow2 by lia.
  f_equal.
  - replace ((l * 2 ^ 40 + i * 2 ^ 24 + n) / 2 ^ 40) with l
      by (apply Z.div_unique with (r := i * 2 ^ 24 + n); lia).
    apply Z.mod_small; lia.
  - replace ((l * 2 ^ 40 + i * 2 ^ 24 + n) / 2 ^ 24) with (l * 2 ^ 16 + i)
      by (apply Z.div_unique with (r := n); lia).
    replace (l * 2 ^ 16 + i) with (i + (l * 2 ^ 4) * 2 ^ 12) by lia.
    rewrite Z.mod_add by lia. apply Z.mod_small; lia.
  - replace (l * 2 ^ 40 + i * 2 ^ 24 + n) with (n + (l * 2 ^ 16 + i) * 2 ^ 24) by lia.
    rewrite Z.mod_add by lia. apply Z.mod_small; lia.
Qed.


End EpochOrder.




(** * Fee *)

Lemma calculateFee_ceil (size feeRate : Z) :
  0 <= size * feeRate →
  calculateFee size feeRate =
    if (size * feeRate) mod 1000 =? 0 then size * feeRate / 1000
    else size * feeRate / 1000 + 1.
Proof.
  intros Hbase. unfold calculateFee. cbv zeta.
  rewrite Z.quot_div_nonneg by lia.
  pose proof (Z.div_mod (size * feeRate) 1000 ltac:(lia)) as Hdm.
  pose proof (Z.mod_pos_bound (size * feeRate) 1000 ltac:(lia)) as Hm.
  destruct (Z.ltb_spec (size * feeRate / 1000 * 1000) (size * feeRate)),
           (Z.eqb_spec ((size * feeRate) mod 1000) 0); lia.
Qed.

Lemma calculateFee_bounds (size feeRate : Z) :
  0 <= size * feeRate →
  size * feeRate <= calculateFee size feeRate * 1000 < size * feeRate + 1000.
Proof.
  intros Hbase. rewrite calculateFee_ceil by done.
  pose proof (Z.div_mod (size * feeRate) 1000 ltac:(lia)) as Hdm.
  pose proof (Z.mod_pos_bound (size * feeRate) 1000 ltac:(lia)) as Hm.
  destruct (Z.eqb_spec ((size * feeRate) mod 1000) 0); lia.
Qed.

Lemma calculateFee_mono_base (s r s' r' : Z) :
  0 <= s * r → s * r <= s' * r' → calculateFee s r <= calculateFee s' r'.
Proof.
  intros H0 Hle.
  pose proof (calculateFee_bounds s r H0).
  pose proof (calculateFee_bounds s' r' ltac:(lia)). lia.
Qed.

(** C6. For non-negative [size] and [rate], [calculateFee size rate] is
    [size * rate / 1000] rounded up exactly when the remainder is not zero;
    so a thousand times the fee is at least [size * rate], the fee of an
    empty transaction is zero, and the fee does not decrease when the size
    or the rate grows. *)
Theorem calculateFee_ceiling_monotone (size rate : Z) :
  0 <= size → 0 <= rate →
  calculateFee size rate =
    (if (size * rate) mod 1000 =? 0 then size * rate / 1000
     else size * rate / 1000 + 1) ∧
  calculateFee size rate * 1000 >= size * rate ∧
  calculateFee 0 rate = 0 ∧
  (∀ size', size <= size' → calculateFee size rate <= calculateFee size' rate) ∧
  (∀ rate', rate <= rate' → calculateFee size rate <= calculateFee size rate').
Proof.
  intros Hs Hr. repeat split.
  - apply calculateFee_ceil. lia.
  - pose proof (calculateFee_bounds size rate ltac:(lia)). lia.
  - intros size' Hle. apply calculateFee_mono_base; nia.
  - intros rate' Hle. apply calculateFee_mono_base; nia.
Qed.

Lemma calculateFee_ceiling_monotone_witness :
  calculateFee 401 1500 =
    (if (401 * 1500) mod 1000 =? 0 then 401 * 1500 / 1000
     else 401 * 1500 / 1000 + 1) ∧
  calculateFee 401 1500 * 1000 >= 401 * 1500 ∧
  calculateFee 0 1500 = 0 ∧
  (∀ size', 401 <= size' → calculateFee 401 1500 <= calculateFee size' 1500) ∧
  (∀ rate', 1500 <= rate' → calculateFee 401 1500 <= calculateFee 401 rate').
Proof. apply (calculateFee_ceiling_monotone 401 1500); lia. Defined.

Example calculateFee_400 : calculateFee 400 1000 = 400.
Proof. reflexivity. Qed.
Example calculateFee_601_5 : calculateFee 401 1500 = 602.
Proof. reflexivity. Qed.

(** * The [result] and builder monads *)

Lemma mapM_cons {A B} (f : A → result B) (x : A) (l : list A) :
  mapM f (x :: l) =
  match f x with
  | Ok y => match mapM f l with Ok k => Ok (y :: k) | Throw e => Throw e end
  | Throw e => Throw e
  end.
Proof. done. Qed.

Lemma mapM_Ok {A B} (f : A → result B) (l : list A) (k : list B) :
  mapM f l = Ok k ↔ Forall2 (λ x y, f x = Ok y) l k.
Proof.
  revert k. induction l as [|x l IH]; intros k.
  - split; [intros [= <-]; constructor | by inversion 1].
  - rewrite mapM_cons. destruct (f x) as [y|e] eqn:Hx.
    + destruct (mapM f l) as [k'|e'] eqn:Hl.
      * split.
        -- intros [= <-]. constructor; [done|]. by apply IH.
        -- inversion 1 as [|? y0 ? l' Hy Hl']; subst. apply IH in Hl'.
           congruence.
      * split; [done|]. inversion 1; subst.
        assert (Throw e' = Ok l') by (by apply IH). done.
    + split; [done|]. inversion 1; congruence.
Qed.

(** The first failure decides. *)
Lemma mapM_Throw {A B} (f : A → result B) (pre post : list A) (x : A)
    (ys : list B) (e : Error) :
  Forall2 (λ x y, f x = Ok y) pre ys → f x = Throw e →
  mapM f (pre ++ x :: post) = Throw e.
Proof.
  induction 1 as [|x' y' pre ys Hx' _ IH]; intros Hx; cbn [app]; rewrite mapM_cons.
  - by rewrite Hx.
  - by rewrite Hx', IH.
Qed.

Section Infrastructure.
Context `{Collaborators}.

Lemma bind_run {A B} (m : M A) (k : A → M B) (b : Builder.t) :
  (m ≫= k) b =
  match m b with
  | (Ok a, b') => k a b'
  | (Throw e, b') => (Throw e, b')
  end.
Proof. done. Qed.

Lemma bind_lift {A B} (r : result A) (k : A → M B) (b : Builder.t) :
  (lift r ≫= k) b = match r with Ok a => k a b | Throw e => (Throw e, b) end.
Proof. rewrite bind_run. unfold lift. by destruct r. Qed.

Lemma never_returns_throw {A} (e : Error) : never_returns (@throw A e).
Proof. by intros b a b'. Qed.

Lemma never_returns_bind {A B} (m : M A) (k : A → M B) :
  (∀ a, never_returns (k a)) → never_returns (m ≫= k).
Proof.
  intros Hk b y b'. rewrite bind_run.
  destruct (m b) as [[a|e] b1]; [apply Hk | done].
Qed.

(** ** Scripts and cell kinds *)

Lemma scriptEq_Some (s0 s1 : Script.t) :
  scriptEq (Some s0) (Some s1) = Ok (bool_decide (s0 = s1)).
Proof.
  destruct s0 as [c0 h0 a0], s1 as [c1 h1 a1]. unfold scriptEq, string_eqb; simpl.
  f_equal. repeat case_bool_decide; simpl; congruence.
Qed.

Lemma scriptEq_defaultScript (o : option Script.t) (s : Script.t) :
  scriptEq o (Some s) = Ok (bool_decide (o = Some s)).
Proof.
  destruct o as [s0|]; [|done]. rewrite scriptEq_Some. f_equal.
  apply bool_decide_ext. split; congruence.
Qed.

Lemma isDAODeposit_kind (c : Cell.t) :
  isDAODeposit c = Ok (bool_decide (kind c = MaturityDeposit)).
Proof.
  unfold isDAODeposit, kind, data_eqb. rewrite scriptEq_defaultScript. simpl.
  f_equal. repeat (case_decide || case_bool_decide); simpl; congruence.
Qed.

Lemma isDAOWithdrawal_kind (c : Cell.t) :
  isDAOWithdrawal c = Ok (bool_decide (kind c = MaturityWithdrawal)).
Proof.
  unfold isDAOWithdrawal, kind, data_eqb. rewrite scriptEq_defaultScript. simpl.
  f_equal. repeat (case_decide || case_bool_decide); simpl; congruence.
Qed.

(** A maturity deposit's payload decodes to block number zero. *)
Lemma deposit_payload (c : Cell.t) :
  kind c = MaturityDeposit →
  Uint64LE_unpack (Cell.data c) = Ok 0%N ∧ toHexString 0 = "0x0".
Proof.
  unfold kind. repeat case_decide; try done. intros _.
  by replace (Cell.data c) with DAO_DEPOSIT_DATA.
Qed.

(** ** The header cache *)

Lemma cache_filled_refl (b : Builder.t) : cache_filled b b.
Proof. by repeat split. Qed.

Lemma cache_filled_trans (b1 b2 b3 : Builder.t) :
  cache_filled b1 b2 → cache_filled b2 b3 → cache_filled b1 b3.
Proof.
  intros (?&?&?&?&H12) (?&?&?&?&H23).
  repeat split; congruence.
Qed.

Lemma resolveHeader_filled (b b' : Builder.t) (k : option string) :
  cache_filled b b' → resolveHeader b' k = resolveHeader b k.
Proof. intros (_&_&_&_&Hr). unfold resolveHeader. by rewrite Hr. Qed.

Lemma getHeaderByNumber_run (k : option string) (b : Builder.t) :
  ∃ b', getHeaderByNumber k b = (resolveHeader b k, b') ∧ cache_filled b b'.
Proof.
  unfold getHeaderByNumber, resolveHeader, resolve.
  rewrite bind_run. unfold this.
  destruct (mjoin (Builder.blockNumber2Header b !! k)) as [h|] eqn:Hget.
  { exists b. split; [done|]. apply cache_filled_refl. }
  rewrite bind_run. unfold modify.
  exists (Builder.set_blockNumber2Header
            (<[k := rpc_getHeaderByNumber k]> (Builder.blockNumber2Header b)) b).
  split.
  { by destruct (rpc_getHeaderByNumber k). }
  repeat split; try done. intros k'. unfold resolve; simpl.
  destruct (decide (k = k')) as [<-|Hne].
  - rewrite lookup_insert_eq, Hget. simpl. by destruct (rpc_getHeaderByNumber k).
  - by rewrite lookup_insert_ne.
Qed.

Lemma getHeaderByNumber_answers (b : Builder.t) :
  answers b getHeaderByNumber (resolveHeader b).
Proof.
  intros k b1 H1. destruct (getHeaderByNumber_run k b1) as (b2 & Hrun & H2).
  exists b2. rewrite Hrun, (resolveHeader_filled b b1) by done.
  eauto using cache_filled_trans.
Qed.

Lemma getBlockHash_answers (b : Builder.t) :
  answers b getBlockHash (resolveHash b).
Proof.
  intros n b1 H1. unfold getBlockHash, resolveHash.
  destruct (getHeaderByNumber_answers b (Some n) b1 H1) as (b2 & Hrun & H2).
  exists b2. rewrite bind_run, Hrun. split; [|done].
  by destruct (resolveHeader b (Some n)).
Qed.

End Infrastructure.

(** * Insertion-ordered sets *)

Section FirstOccurrences.
Context {A : Type} `{EqDecision A}.
Implicit Types (l seen : list A) (x : A).

Lemma first_occurrences_from_ext seen seen' l :
  (∀ x, x ∈ seen ↔ x ∈ seen') →
  first_occurrences_from seen l = first_occurrences_from seen' l.
Proof.
  revert seen seen'. induction l as [|x l IH]; intros seen seen' Hs; [done|].
  simpl. destruct (decide (x ∈ seen)) as [Hx|Hx], (decide (x ∈ seen')) as [Hx'|Hx'];
    try (by apply Hs in Hx) || (by apply Hs in Hx').
  - by apply IH.
  - f_equal. apply IH. set_solver.
Qed.

Lemma foldl_Set_add seen l :
  foldl (λ s x, Set_add x s) seen l = seen ++ first_occurrences_from seen l.
Proof.
  revert seen. induction l as [|x l IH]; intros seen; simpl.
  - by rewrite app_nil_r.
  - rewrite IH. unfold Set_add. destruct (decide (x ∈ seen)); [done|].
    rewrite <- app_assoc. simpl. do 2 f_equal.
    apply first_occurrences_from_ext. set_solver.
Qed.

Lemma elem_of_first_occurrences_from seen l x :
  x ∈ first_occurrences_from seen l ↔ x ∈ l ∧ x ∉ seen.
Proof.
  revert seen. induction l as [|y l IH]; intros seen; simpl.
  - set_solver.
  - destruct (decide (y ∈ seen)).
    + rewrite IH. set_solver.
    + rewrite elem_of_cons, IH. destruct (decide (x = y)); set_solver.
Qed.

Lemma NoDup_first_occurrences_from seen l :
  NoDup (first_occurrences_from seen l).
Proof.
  revert seen. induction l as [|y l IH]; intros seen; simpl; [constructor|].
  destruct (decide (y ∈ seen)); [done|]. constructor; [|done].
  rewrite elem_of_first_occurrences_from. set_solver.
Qed.

Lemma elem_of_first_occurrences l x : x ∈ first_occurrences l ↔ x ∈ l.
Proof. unfold first_occurrences. rewrite elem_of_first_occurrences_from. set_solver. Qed.

Lemma NoDup_first_occurrences l : NoDup (first_occurrences l).
Proof. apply NoDup_first_occurrences_from. Qed.

Lemma first_occurrences_from_cons seen x l :
  first_occurrences_from (x :: seen) l =
  first_occurrences_from seen (filter (λ y, y ≠ x) l).
Proof.
  revert seen. induction l as [|y l IH]; intros seen; [done|].
  rewrite filter_cons. simpl. destruct (decide (y = x)) as [->|Hne].
  - rewrite decide_True by set_solver. rewrite decide_False by tauto. apply IH.
  - rewrite (decide_True (P := y ≠ x)) by done. simpl.
    destruct (decide (y ∈ x :: seen)) as [Hy|Hy], (decide (y ∈ seen)) as [Hy'|Hy'];
      try set_solver.
    f_equal. rewrite <- IH. apply first_occurrences_from_ext. set_solver.
Qed.

(** The order is that of the first occurrences: the head stays first, and
    the rest is the same selection from what follows without the head. *)
Lemma first_occurrences_cons x l :
  first_occurrences (x :: l) = x :: first_occurrences (filter (λ y, y ≠ x) l).
Proof.
  unfold first_occurrences. cbn [first_occurrences_from].
  rewrite decide_False by set_solver. f_equal. apply first_occurrences_from_cons.
Qed.

End FirstOccurrences.

Section CapacityDelta.
Context `{Collaborators}.

Lemma foldl_sub_capacity (outputs : list Cell.t) (acc : Z) :
  foldl (λ ckbDelta c, ckbDelta - CellOutput.capacity (Cell.cellOutput c)) acc outputs
  = acc - total (map (λ c, CellOutput.capacity (Cell.cellOutput c)) outputs).
Proof.
  revert acc. induction outputs as [|c outputs IH]; intros acc; simpl; [lia|].
  rewrite IH. unfold total at 2. simpl. fold (total (map (λ c, CellOutput.capacity (Cell.cellOutput c)) outputs)). lia.
Qed.

Lemma getCkbDelta_inputs_run (b0 : Builder.t) (cs : list Cell.t) :
  ∀ (acc : Z) (b : Builder.t), cache_filled b0 b →
  ∃ b', getCkbDelta_inputs cs acc b =
          (caps ← mapM (effectiveCapacity b0) cs; mret (acc + total caps), b') ∧
        cache_filled b0 b'.
Proof.
  induction cs as [|c cs IH]; intros acc b Hb.
  { exists b. split; [|done]. simpl. unfold mret, M_ret, result_ret, total. simpl.
    by rewrite Z.add_0_r. }
  cbn [getCkbDelta_inputs]. rewrite bind_lift, isDAODeposit_kind, mapM_cons.
  unfold effectiveCapacity at 1.
  destruct (kind c) eqn:Hk; cbn [bool_decide decide_rel CellKind_eq_dec].
  1,3: simpl; destruct (IH (acc + CellOutput.capacity (Cell.cellOutput c)) b Hb)
         as (b' & -> & Hb'); exists b'; split; [|done];
       unfold mbind, result_bind, mret, result_ret;
       destruct (mapM (effectiveCapacity b0) cs); [|done];
       unfold total; simpl; do 2 f_equal; lia.
  simpl. rewrite bind_lift.
  destruct (Uint64LE_unpack (Cell.data c)) as [n|e]; simpl; [|by exists b].
  rewrite bind_run.
  destruct (getHeaderByNumber_answers b0 (Some (toHexString n)) b Hb)
    as (b1 & -> & Hb1).
  destruct (resolveHeader b0 (Some (toHexString n))) as [dh|e]; simpl;
    [|by exists b1].
  rewrite bind_run.
  destruct (getHeaderByNumber_answers b0 (Cell.blockNumber c) b1 Hb1)
    as (b2 & -> & Hb2).
  destruct (resolveHeader b0 (Cell.blockNumber c)) as [wh|e]; simpl;
    [|by exists b2].
  destruct (IH (acc + calculateMaximumWithdrawCompatible c (Header.dao dh) (Header.dao wh))
              b2 Hb2) as (b' & -> & Hb').
  exists b'. split; [|done].
  unfold mbind, result_bind, mret, result_ret.
  destruct (mapM (effectiveCapacity b0) cs); [|done].
  unfold total; simpl; do 2 f_equal; lia.
Qed.

End CapacityDelta.


Section HeaderDeps.
Context `{Collaborators}.

Lemma headerContribution_cases (f : string → result string) (c : Cell.t) :
  headerContribution f c =
  if falsy (Cell.blockNumber c) then Throw MissingBlockNumber
  else match kind c with
       | Ordinary => Ok []
       | MaturityDeposit =>
           match f (default EmptyString (Cell.blockNumber c)) with
           | Ok h => Ok [h]
           | Throw e => Throw e
           end
       | MaturityWithdrawal =>
           match f (default EmptyString (Cell.blockNumber c)) with
           | Ok h =>
               match Uint64LE_unpack (Cell.data c) with
               | Ok n =>
                   match f (toHexString n) with
                   | Ok h' => Ok [h; h']
                   | Throw e => Throw e
                   end
               | Throw e => Throw e
               end
           | Throw e => Throw e
           end
       end.
Proof.
  unfold headerContribution. destruct (falsy _); [done|].
  by destruct (kind c).
Qed.

Lemma addHeaderDeps_inputs_run (b0 : Builder.t) (cb : string → M string)
    (f : string → result string) (cs : list Cell.t) :
  answers b0 cb f →
  ∀ (u : list string) (b : Builder.t), cache_filled b0 b →
  ∃ b', addHeaderDeps_inputs cb cs u b =
          (ls ← mapM (headerContribution f) cs;
           mret (foldl (λ s x, Set_add x s) u (concat ls)), b') ∧
        cache_filled b0 b'.
Proof.
  intros Hcb. induction cs as [|c cs IH]; intros u b Hb.
  { by exists b. }
  cbn [addHeaderDeps_inputs]. rewrite mapM_cons, headerContribution_cases.
  destruct (falsy (Cell.blockNumber c)); [by exists b|].
  rewrite bind_lift, isDAODeposit_kind.
  destruct (kind c) eqn:Hk; decide_kind.
  - (* ordinary *)
    rewrite bind_lift, isDAOWithdrawal_kind, Hk. decide_kind.
    destruct (IH u b Hb) as (b' & -> & Hb'). exists b'. split; [|done].
    unfold mbind, result_bind.
    by destruct (mapM (headerContribution f) cs).
  - (* deposit *)
    rewrite bind_run. destruct (Hcb (default EmptyString (Cell.blockNumber c)) b Hb)
      as (b1 & -> & Hb1).
    destruct (f (default EmptyString (Cell.blockNumber c))) as [h|e]; [|by exists b1].
    destruct (IH (Set_add h u) b1 Hb1) as (b' & -> & Hb'). exists b'.
    split; [|done]. unfold mbind, result_bind.
    by destruct (mapM (headerContribution f) cs).
  - (* withdrawal *)
    rewrite bind_lift, isDAOWithdrawal_kind, Hk. decide_kind.
    rewrite bind_run. destruct (Hcb (default EmptyString (Cell.blockNumber c)) b Hb)
      as (b1 & -> & Hb1).
    destruct (f (default EmptyString (Cell.blockNumber c))) as [h|e]; [|by exists b1].
    cbv zeta. rewrite bind_lift.
    destruct (Uint64LE_unpack (Cell.data c)) as [n|e]; [|by exists b1].
    rewrite bind_run. destruct (Hcb (toHexString n) b1 Hb1) as (b2 & -> & Hb2).
    destruct (f (toHexString n)) as [h'|e]; [|by exists b2].
    destruct (IH (Set_add h' (Set_add h u)) b2 Hb2) as (b' & -> & Hb'). exists b'.
    split; [|done]. unfold mbind, result_bind.
    by destruct (mapM (headerContribution f) cs).
Qed.

Lemma addHeaderDeps_run (b : Builder.t) (cb : string → M string)
    (f : string → result string) (transaction : TransactionSkeleton.t) :
  answers b cb f → TransactionSkeleton.headerDeps transaction = [] →
  ∃ b', addHeaderDeps transaction cb b =
          (ls ← mapM (headerContribution f) (TransactionSkeleton.inputs transaction);
           mret (TransactionSkeleton.update_headerDeps
                   (λ _, first_occurrences (concat ls)) transaction), b') ∧
        cache_filled b b'.
Proof.
  intros Hcb Hempty. unfold addHeaderDeps. rewrite Hempty. simpl.
  destruct (addHeaderDeps_inputs_run b cb f (TransactionSkeleton.inputs transaction)
              Hcb [] b (cache_filled_refl b)) as (b' & Hrun & Hb').
  exists b'. split; [|done]. rewrite bind_run, Hrun.
  unfold mbind, result_bind.
  destruct (mapM (headerContribution f) (TransactionSkeleton.inputs transaction));
    [|done].
  unfold mret, M_ret, result_ret. do 2 f_equal.
  rewrite foldl_Set_add. unfold TransactionSkeleton.update_headerDeps.
  by rewrite Hempty.
Qed.

Lemma Uint64LE_unpack_8 (buf : list byte) :
  length buf = 8%nat → Uint64LE_unpack buf = Ok (littleEndian buf).
Proof. intros Hlen. unfold Uint64LE_unpack. by rewrite Hlen. Qed.

Lemma headerContribution_total (hashOf : string → string) (c : Cell.t) :
  falsy (Cell.blockNumber c) = false →
  (kind c = MaturityWithdrawal → length (Cell.data c) = 8%nat) →
  headerContribution (λ n, Ok (hashOf n)) c = Ok (blockHashes hashOf c).
Proof.
  intros Hbn Hpay. unfold headerContribution, blockHashes. rewrite Hbn.
  destruct (kind c); try done. simpl. by rewrite Uint64LE_unpack_8 by auto.
Qed.

Lemma headerContribution_missing (hashOf : string → string) (cs : list Cell.t) :
  Forall (λ c, kind c = MaturityWithdrawal → length (Cell.data c) = 8%nat) cs →
  Exists (λ c, falsy (Cell.blockNumber c) = true) cs →
  mapM (headerContribution (λ n, Ok (hashOf n))) cs = Throw MissingBlockNumber.
Proof.
  induction 1 as [|c cs Hc _ IH]; intros Hex; [by inversion Hex|].
  rewrite mapM_cons. destruct (falsy (Cell.blockNumber c)) eqn:Hbn.
  - unfold headerContribution. by rewrite Hbn.
  - rewrite headerContribution_total by done. rewrite IH; [done|].
    inversion Hex; subst; [congruence|done].
Qed.

End HeaderDeps.

(** C4. Let the callback answer [hashOf n] for every block number [n], and
    let the payload of every maturity-withdrawal input be eight bytes. On a
    skeleton without header dependencies, if every input carries a block
    number, [addHeaderDeps] returns the skeleton with the header
    dependencies set to the first occurrences, in order, of: nothing for an
    ordinary input, the hash of its own block for a maturity deposit, and
    the hash of its own block followed by the hash of the block whose number
    its payload holds for a maturity withdrawal. If some input carries no
    block number it throws [MissingBlockNumber]. *)
Theorem addHeaderDeps_emits `{Collaborators} (transaction : TransactionSkeleton.t)
    (cb : string → M string) (hashOf : string → string) (b : Builder.t) :
  TransactionSkeleton.headerDeps transaction = [] →
  answers b cb (λ n, Ok (hashOf n)) →
  Forall (λ c, kind c = MaturityWithdrawal → length (Cell.data c) = 8%nat)
    (TransactionSkeleton.inputs transaction) →
  (Forall (λ c, falsy (Cell.blockNumber c) = false)
     (TransactionSkeleton.inputs transaction) →
   ∃ b', addHeaderDeps transaction cb b =
           (Ok (TransactionSkeleton.update_headerDeps
                  (λ _, first_occurrences
                          (concat (map (blockHashes hashOf)
                                     (TransactionSkeleton.inputs transaction))))
                  transaction), b')) ∧
  (Exists (λ c, falsy (Cell.blockNumber c) = true)
     (TransactionSkeleton.inputs transaction) →
   ∃ b', addHeaderDeps transaction cb b = (Throw MissingBlockNumber, b')).
Proof.
  intros Hempty Hcb Hpay.
  destruct (addHeaderDeps_run b cb _ transaction Hcb Hempty) as (b' & Hrun & _).
  split.
  - intros Hbn. exists b'. rewrite Hrun.
    replace (mapM (headerContribution (λ n, Ok (hashOf n)))
               (TransactionSkeleton.inputs transaction))
      with (Ok (map (blockHashes hashOf) (TransactionSkeleton.inputs transaction)));
      [done|].
    symmetry. apply mapM_Ok, Forall2_fmap_r, Forall_Forall2_diag.
    rewrite Forall_forall in Hpay, Hbn. apply Forall_forall. intros c Hc.
    apply headerContribution_total; auto.
  - intros Hex. exists b'. by rewrite Hrun, headerContribution_missing.
Qed.

(** * Serialised keys *)

Lemma dash_split_inj (a a' r r' : string) :
  dash_free a = true → dash_free a' = true →
  a +:+ "-" +:+ r = a' +:+ "-" +:+ r' → a = a' ∧ r = r'.
Proof.
  revert a'. induction a as [|c a IH]; intros [|c' a']; simpl.
  - intros _ _ [= Hr]. by subst.
  - intros _ Hd [= Hc _]. subst c'. by rewrite bool_decide_eq_true_2 in Hd.
  - intros Hd _ [= Hc _]. subst c. by rewrite bool_decide_eq_true_2 in Hd.
  - intros [_ Ha]%andb_prop [_ Ha']%andb_prop [= Hc Heq]. subst c'.
    destruct (IH a' Ha Ha' Heq) as [-> ->]. done.
Qed.

Lemma serializeCellDep_inj (d d' : CellDep.t) :
  hex_CellDep d = true → hex_CellDep d' = true →
  serializeCellDep d = serializeCellDep d' → d = d'.
Proof.
  destruct d as [[t i] k], d' as [[t' i'] k']. unfold hex_CellDep, serializeCellDep.
  simpl. intros [Ht Hi]%andb_prop [Ht' Hi']%andb_prop Heq.
  apply dash_split_inj in Heq as [-> Heq]; [|done..].
  apply dash_split_inj in Heq as [-> ->]; done.
Qed.

(** * [Map] *)

Section JsMap.
Context {V : Type}.
Implicit Types (m : JsMap V) (k : string) (v : V).

Lemma Map_get_Some_elem m k v : Map_get k m = Some v → (k, v) ∈ m.
Proof.
  induction m as [|[k' v'] m IH]; simpl; [done|].
  case_decide; [intros [= <-]; subst; left | right; auto].
Qed.

End JsMap.

Section CellDeps.
Context `{Collaborators}.

Lemma Map_set_keyed (m : JsMap CellDep.t) (d : CellDep.t) :
  keyed m → hex_CellDep d = true →
  keyed (Map_set (serializeCellDep d) d m) ∧
  Map_values (Map_set (serializeCellDep d) d m) = Set_add d (Map_values m).
Proof.
  intros Hm Hd. unfold Map_values, Set_add.
  induction Hm as [|[k d'] m [Hk Hd'] Hm IH].
  { split; [by repeat constructor|done]. }
  cbn [Map_set]. simpl in Hk. subst k. rewrite fmap_cons. cbn [snd].
  destruct (decide (serializeCellDep d' = serializeCellDep d)) as [Heq|Hne].
  - apply serializeCellDep_inj in Heq as ->; [|done..].
    rewrite decide_True by left. split; [by constructor|done].
  - destruct IH as [IHk IHv]. split; [by constructor|].
    rewrite fmap_cons, IHv. cbn [snd].
    assert (d ≠ d') by congruence.
    destruct (decide (d ∈ m.*2)), (decide (d ∈ d' :: m.*2)); set_solver.
Qed.

Lemma foldl_Map_set_keyed (ds : list CellDep.t) (m : JsMap CellDep.t) :
  keyed m → Forall (λ d, hex_CellDep d = true) ds →
  keyed (foldl (λ m d, Map_set (serializeCellDep d) d m) m ds) ∧
  Map_values (foldl (λ m d, Map_set (serializeCellDep d) d m) m ds)
  = foldl (λ s d, Set_add d s) (Map_values m) ds.
Proof.
  intros Hm Hds. revert m Hm. induction Hds as [|d ds Hd _ IH]; intros m Hm; [done|].
  simpl. destruct (Map_set_keyed m d Hm Hd) as [Hk Hv].
  destruct (IH _ Hk) as [Hk' Hv']. by rewrite Hv', Hv.
Qed.

Lemma requiredCellDeps_hex (s : Script.t) (ds : list CellDep.t) :
  registry_hex = true → requiredCellDeps s = Some ds →
  Forall (λ d, hex_CellDep d = true) ds.
Proof.
  unfold registry_hex, requiredCellDeps. intros Hreg Hget.
  apply Map_get_Some_elem in Hget.
  rewrite forallb_forall in Hreg. apply list_elem_of_In, Hreg in Hget.
  apply Forall_forall. intros d Hd. simpl in Hget.
  rewrite forallb_forall in Hget. by apply Hget, list_elem_of_In.
Qed.

Lemma addCellDeps_scripts_run (scripts : list Script.t) (m : JsMap CellDep.t) :
  registry_hex = true → keyed m →
  match mapM resolveScript scripts with
  | Ok depss =>
      ∃ m', addCellDeps_scripts scripts m = Ok m' ∧
            Map_values m' = foldl (λ s d, Set_add d s) (Map_values m) (concat depss)
  | Throw e => addCellDeps_scripts scripts m = Throw e
  end.
Proof.
  intros Hreg. revert m. induction scripts as [|s scripts IH]; intros m Hm.
  { by exists m. }
  rewrite mapM_cons. cbn [addCellDeps_scripts]. unfold resolveScript at 1.
  fold (requiredCellDeps s).
  destruct (requiredCellDeps s) as [ds|] eqn:Hs; [|done].
  pose proof (requiredCellDeps_hex s ds Hreg Hs) as Hds.
  destruct (foldl_Map_set_keyed ds m Hm Hds) as [Hk Hv].
  specialize (IH _ Hk).
  destruct (mapM resolveScript scripts) as [depss|e]; [|done].
  destruct IH as (m' & -> & Hm'). exists m'. split; [done|].
  by rewrite Hm', Hv, concat_cons, foldl_app.
Qed.

Lemma addCellDeps_run (transaction : TransactionSkeleton.t) :
  registry_hex = true → TransactionSkeleton.cellDeps transaction = [] →
  addCellDeps transaction =
    (depss ← mapM resolveScript (collectScripts transaction);
     mret (TransactionSkeleton.update_cellDeps
             (λ _, first_occurrences (concat depss)) transaction)).
Proof.
  intros Hreg Hempty. unfold addCellDeps. rewrite Hempty. simpl.
  pose proof (addCellDeps_scripts_run (collectScripts transaction) [] Hreg
                ltac:(constructor)) as Hrun.
  unfold mbind, result_bind.
  destruct (mapM resolveScript (collectScripts transaction)) as [depss|e].
  - destruct Hrun as (m' & -> & Hm'). unfold mret, result_ret. f_equal.
    unfold TransactionSkeleton.update_cellDeps. rewrite Hempty, Hm'. simpl.
    by rewrite foldl_Set_add.
  - by rewrite Hrun.
Qed.

Lemma resolveScript_Ok (s : Script.t) (ds : list CellDep.t) :
  resolveScript s = Ok ds ↔ requiredCellDeps s = Some ds.
Proof.
  unfold resolveScript. destruct (requiredCellDeps s); split; congruence.
Qed.

Lemma mapM_resolveScript_cases (scripts : list Script.t) :
  match mapM resolveScript scripts with
  | Ok depss =>
      Forall2 (λ s ds, requiredCellDeps s = Some ds) scripts depss
  | Throw e =>
      e = UnresolvedScript ∧ Exists (λ s, requiredCellDeps s = None) scripts
  end.
Proof.
  induction scripts as [|s scripts IH]; [constructor|].
  rewrite mapM_cons. unfold resolveScript at 1.
  destruct (requiredCellDeps s) as [ds|] eqn:Hs.
  - destruct (mapM resolveScript scripts) as [depss|e].
    + by constructor.
    + destruct IH as [-> IH]. split; [done|]. by right.
  - split; [done|]. by left.
Qed.

Lemma elem_of_concat_resolved (scripts : list Script.t)
    (depss : list (list CellDep.t)) (d : CellDep.t) :
  Forall2 (λ s ds, requiredCellDeps s = Some ds) scripts depss →
  d ∈ concat depss ↔
  ∃ s ds, s ∈ scripts ∧ requiredCellDeps s = Some ds ∧ d ∈ ds.
Proof.
  induction 1 as [|s ds scripts depss Hs _ IH]; simpl.
  - split; [by intros ?%elem_of_nil | by intros (?&?&?%elem_of_nil&_)].
  - rewrite elem_of_app, IH. split.
    + intros [Hd|(s'&ds'&?&?&?)]; [exists s, ds | exists s', ds']; set_solver.
    + intros (s'&ds'&[->|?]%elem_of_cons&Hs'&?).
      * left. congruence.
      * right. eauto.
Qed.

Lemma collectScripts_spec (transaction : TransactionSkeleton.t) (s : Script.t) :
  s ∈ collectScripts transaction ↔
  (∃ c, c ∈ TransactionSkeleton.inputs transaction ∧
        CellOutput.lock (Cell.cellOutput c) = s) ∨
  (∃ c, (c ∈ TransactionSkeleton.inputs transaction ∨
         c ∈ TransactionSkeleton.outputs transaction) ∧
        CellOutput.type (Cell.cellOutput c) = Some s).
Proof.
  unfold collectScripts.
  rewrite elem_of_app, list_elem_of_fmap, list_elem_of_omap.
  setoid_rewrite elem_of_app. naive_solver.
Qed.

Lemma collectScripts_Permutation (t t' : TransactionSkeleton.t) :
  TransactionSkeleton.inputs t' ≡ₚ TransactionSkeleton.inputs t →
  TransactionSkeleton.outputs t' = TransactionSkeleton.outputs t →
  collectScripts t' ≡ₚ collectScripts t.
Proof. intros Hi Ho. unfold collectScripts. by rewrite Hi, Ho. Qed.

End CellDeps.

(** C5. With a registry written in hex and a skeleton without cell
    dependencies: [addCellDeps] collects the lock of every input and the
    type, where present, of every input and output; it throws
    [UnresolvedScript] as soon as one of them has no dependency set; else
    it sets the cell dependencies to the first occurrences, in order, of
    the required entries of the collected scripts, so that an entry is
    emitted exactly when some collected script requires it, and once; and
    permuting the inputs changes neither whether it fails nor which entries
    it emits. *)
Theorem addCellDeps_union `{Collaborators} (transaction : TransactionSkeleton.t) :
  registry_hex = true →
  TransactionSkeleton.cellDeps transaction = [] →
  (∀ s, s ∈ collectScripts transaction ↔
        (∃ c, c ∈ TransactionSkeleton.inputs transaction ∧
              CellOutput.lock (Cell.cellOutput c) = s) ∨
        (∃ c, (c ∈ TransactionSkeleton.inputs transaction ∨
               c ∈ TransactionSkeleton.outputs transaction) ∧
              CellOutput.type (Cell.cellOutput c) = Some s)) ∧
  (Exists (λ s, requiredCellDeps s = None) (collectScripts transaction) →
   addCellDeps transaction = Throw UnresolvedScript) ∧
  (∀ depss,
     Forall2 (λ s ds, requiredCellDeps s = Some ds) (collectScripts transaction)
       depss →
     addCellDeps transaction =
       Ok (TransactionSkeleton.update_cellDeps
             (λ _, first_occurrences (concat depss)) transaction)) ∧
  (∀ out, addCellDeps transaction = Ok out →
     NoDup (TransactionSkeleton.cellDeps out) ∧
     ∀ d, d ∈ TransactionSkeleton.cellDeps out ↔
          ∃ s ds, s ∈ collectScripts transaction ∧
                  requiredCellDeps s = Some ds ∧ d ∈ ds) ∧
  (∀ reordered,
     TransactionSkeleton.cellDeps reordered = [] →
     TransactionSkeleton.inputs reordered ≡ₚ TransactionSkeleton.inputs transaction →
     TransactionSkeleton.outputs reordered = TransactionSkeleton.outputs transaction →
     match addCellDeps transaction, addCellDeps reordered with
     | Ok out, Ok out' =>
         ∀ d, d ∈ TransactionSkeleton.cellDeps out ↔
              d ∈ TransactionSkeleton.cellDeps out'
     | Throw e, Throw e' => e = e'
     | _, _ => False
     end).
Proof.
  intros Hreg Hempty.
  assert (Hout : ∀ t out, TransactionSkeleton.cellDeps t = [] →
            addCellDeps t = Ok out →
            NoDup (TransactionSkeleton.cellDeps out) ∧
            ∀ d, d ∈ TransactionSkeleton.cellDeps out ↔
                 ∃ s ds, s ∈ collectScripts t ∧
                         requiredCellDeps s = Some ds ∧ d ∈ ds).
  { intros t out Ht. rewrite addCellDeps_run by done.
    pose proof (mapM_resolveScript_cases (collectScripts t)) as Hc.
    destruct (mapM resolveScript (collectScripts t)) as [depss|e]; [|done].
    intros [= <-]. simpl. split; [apply NoDup_first_occurrences|].
    intros d. by rewrite elem_of_first_occurrences, elem_of_concat_resolved. }
  assert (Hfail : ∀ t e, TransactionSkeleton.cellDeps t = [] →
            addCellDeps t = Throw e →
            e = UnresolvedScript ∧
            Exists (λ s, requiredCellDeps s = None) (collectScripts t)).
  { intros t e Ht. rewrite addCellDeps_run by done.
    pose proof (mapM_resolveScript_cases (collectScripts t)) as Hc.
    destruct (mapM resolveScript (collectScripts t)) as [depss|e']; [done|].
    by intros [= <-]. }
  split; [apply collectScripts_spec|]. split; [|split; [|split]].
  - intros Hex. rewrite addCellDeps_run by done.
    pose proof (mapM_resolveScript_cases (collectScripts transaction)) as Hc.
    destruct (mapM resolveScript (collectScripts transaction)) as [depss|e].
    + exfalso. apply Exists_exists in Hex as (s & Hs & Hnone).
      apply list_elem_of_lookup in Hs as [i Hi].
      destruct (Forall2_lookup_l _ _ _ _ _ Hc Hi) as (ds & _ & Hds). congruence.
    + by destruct Hc as [-> _].
  - intros depss Hdepss. rewrite addCellDeps_run by done.
    replace (mapM resolveScript (collectScripts transaction)) with (Ok depss); [done|].
    symmetry. apply mapM_Ok. eapply Forall2_impl; [done|].
    intros s ds Hs. by apply resolveScript_Ok.
  - intros out. by apply Hout.
  - intros reordered Hempty' Hi Ho.
    pose proof (collectScripts_Permutation _ _ Hi Ho) as Hperm.
    destruct (addCellDeps transaction) as [out|e] eqn:Ht,
             (addCellDeps reordered) as [out'|e'] eqn:Hr.
    + destruct (Hout _ _ Hempty Ht) as [_ Hd], (Hout _ _ Hempty' Hr) as [_ Hd'].
      intros d. rewrite Hd, Hd'. by setoid_rewrite Hperm.
    + destruct (Hfail _ _ Hempty' Hr) as [_ Hex].
      rewrite Hperm in Hex. rewrite addCellDeps_run in Ht by done.
      pose proof (mapM_resolveScript_cases (collectScripts transaction)) as Hc.
      destruct (mapM resolveScript (collectScripts transaction)) as [depss|]; [|done].
      apply Exists_exists in Hex as (s & Hs & Hnone).
      apply list_elem_of_lookup in Hs as [i Hi'].
      destruct (Forall2_lookup_l _ _ _ _ _ Hc Hi') as (ds & _ & Hds). congruence.
    + destruct (Hfail _ _ Hempty Ht) as [_ Hex].
      rewrite <- Hperm in Hex. rewrite addCellDeps_run in Hr by done.
      pose proof (mapM_resolveScript_cases (collectScripts reordered)) as Hc.
      destruct (mapM resolveScript (collectScripts reordered)) as [depss|]; [|done].
      apply Exists_exists in Hex as (s & Hs & Hnone).
      apply list_elem_of_lookup in Hs as [i Hi'].
      destruct (Forall2_lookup_l _ _ _ _ _ Hc Hi') as (ds & _ & Hds). congruence.
    + destruct (Hfail _ _ Hempty Ht) as [-> _], (Hfail _ _ Hempty' Hr) as [-> _].
      done.
Qed.

Section Witnesses.
Context `{Collaborators}.



Lemma length_padFlags (accountLock : Script.t) (cs : list Cell.t) (n : nat) :
  length (padFlags accountLock n cs) = length cs.
Proof. revert n. induction cs; intros n; simpl; auto. Qed.






Lemma inputTypeFor_cases (f : string → result string) (hd : list string)
    (c : Cell.t) :
  inputTypeFor f hd c =
  match kind c with
  | MaturityDeposit =>
      match Uint64LE_unpack (Cell.data c) with
      | Ok n =>
          match f (toHexString n) with
          | Ok blockHash =>
              if findIndex (λ v, string_eqb v blockHash) hd =? -1
              then Throw HeaderDepNotFound
              else match Uint64LE_pack (findIndex (λ v, string_eqb v blockHash) hd) with
                   | Ok packed => Ok (Some packed)
                   | Throw e => Throw e
                   end
          | Throw e => Throw e
          end
      | Throw e => Throw e
      end
  | _ => Ok None
  end.
Proof. unfold inputTypeFor. by destruct (kind c). Qed.

(** For a maturity deposit the hash that is looked up is always that of
    block 0, whatever block the deposit is in. *)
Lemma inputTypeFor_deposit (f : string → result string) (hd : list string)
    (c : Cell.t) :
  kind c = MaturityDeposit →
  inputTypeFor f hd c =
    (blockHash ← f "0x0";
     let headerDepIndex := findIndex (λ v, string_eqb v blockHash) hd in
     if headerDepIndex =? -1 then Throw HeaderDepNotFound
     else packed ← Uint64LE_pack headerDepIndex; mret (Some packed)).
Proof.
  intros Hk. unfold inputTypeFor. rewrite Hk.
  destruct (deposit_payload c Hk) as [-> _]. reflexivity.
Qed.

Lemma addWitnessPlaceholders_inputs_run (b0 : Builder.t) (accountLock : Script.t)
    (cb : string → M string) (f : string → result string) (cs : list Cell.t) :
  answers b0 cb f →
  ∀ (n : nat) (t : TransactionSkeleton.t) (b : Builder.t), cache_filled b0 b →
  ∃ b', addWitnessPlaceholders_inputs accountLock cb cs n t b =
          (its ← mapM (inputTypeFor f (TransactionSkeleton.headerDeps t)) cs;
           mret (TransactionSkeleton.update_witnesses
                   (λ w, w ++ map WitnessArgs_pack
                                (zip_with witnessArgsFor (padFlags accountLock n cs) its))
                   t), b') ∧
        cache_filled b0 b'.
Proof.
  intros Hcb. induction cs as [|c cs IH]; intros n t b Hb.
  { exists b. split; [|done]. simpl. unfold mret, M_ret, result_ret.
    do 2 f_equal. destruct t. unfold TransactionSkeleton.update_witnesses. simpl.
    by rewrite app_nil_r. }
  cbn [addWitnessPlaceholders_inputs padFlags]. rewrite mapM_cons, inputTypeFor_cases.
  rewrite bind_lift.
  replace (if (0 <? n)%nat
           then scriptEq (Some (CellOutput.lock (Cell.cellOutput c))) (Some accountLock)
           else Ok false)
    with (Ok ((0 <? n)%nat && owns accountLock c) : result bool)
    by (rewrite scriptEq_Some; unfold owns; by destruct (0 <? n)%nat).
  cbv zeta. set (pad := (0 <? n)%nat && owns accountLock c).
  rewrite bind_lift, isDAODeposit_kind.
  set (n' := if pad then (n - 1)%nat else n).
  assert (Hfinish : ∀ (it : option (list byte)) (b1 : Builder.t),
            cache_filled b0 b1 →
            ∃ b', addWitnessPlaceholders_inputs accountLock cb cs n'
                    (TransactionSkeleton.update_witnesses
                       (λ w, w ++ [WitnessArgs_pack
                                     (WitnessArgs.mk
                                        (Some (if pad then signaturePlaceholder else []))
                                        it None)]) t) b1
                  = (match mapM (inputTypeFor f (TransactionSkeleton.headerDeps t)) cs with
                     | Ok k => Ok (it :: k)
                     | Throw e => Throw e
                     end ≫= λ its,
                       mret (TransactionSkeleton.update_witnesses
                               (λ w, w ++ map WitnessArgs_pack
                                  (zip_with witnessArgsFor
                                     (pad :: padFlags accountLock n' cs) its)) t), b')
                  ∧ cache_filled b0 b').
  { intros it b1 Hb1.
    destruct (IH n' (TransactionSkeleton.update_witnesses
                       (λ w, w ++ [WitnessArgs_pack
                                     (WitnessArgs.mk
                                        (Some (if pad then signaturePlaceholder else []))
                                        it None)]) t) b1 Hb1) as (b' & -> & Hb').
    exists b'.
    split; [|done]. cbn [TransactionSkeleton.headerDeps TransactionSkeleton.update_witnesses].
    unfold mbind, result_bind.
    destruct (mapM (inputTypeFor f (TransactionSkeleton.headerDeps t)) cs); [|done].
    unfold mret, M_ret, result_ret. do 2 f_equal.
    unfold TransactionSkeleton.update_witnesses. simpl. by rewrite <- app_assoc. }
  destruct (kind c) eqn:Hk; decide_kind.
  1,3: rewrite bind_run; unfold mret at 1, M_ret at 1; by apply Hfinish.
  rewrite bind_run, bind_lift.
  destruct (Uint64LE_unpack (Cell.data c)) as [m|e];
    [|by exists b; split; [reflexivity|]].
  rewrite bind_run. destruct (Hcb (toHexString m) b Hb) as (b1 & -> & Hb1).
  destruct (f (toHexString m)) as [blockHash|e];
    [|by exists b1; split; [reflexivity|]].
  cbv zeta.
  destruct (findIndex (λ v, string_eqb v blockHash) (TransactionSkeleton.headerDeps t) =? -1);
    [by exists b1; split; [reflexivity|]|].
  rewrite bind_lift.
  destruct (Uint64LE_pack _) as [packed|e]; [|by exists b1; split; [reflexivity|]].
  unfold mret at 1, M_ret at 1. by apply Hfinish.
Qed.

End Witnesses.


Section Stages.
Context `{Collaborators}.

Lemma bind_Ok {A B} (m : M A) (k : A → M B) (b b' : Builder.t) (y : B) :
  (m ≫= k) b = (Ok y, b') → ∃ a b1, m b = (Ok a, b1) ∧ k a b1 = (Ok y, b').
Proof.
  rewrite bind_run. destruct (m b) as [[a|e] b1]; [eauto|done].
Qed.

Lemma addCellDeps_Ok (t t' : TransactionSkeleton.t) :
  addCellDeps t = Ok t' →
  same_cells t t' ∧
  TransactionSkeleton.headerDeps t' = TransactionSkeleton.headerDeps t.
Proof.
  unfold addCellDeps. destruct (negb _); [done|].
  destruct (addCellDeps_scripts _ _); [|done]. by intros [= <-].
Qed.

Lemma addHeaderDeps_Ok (t t' : TransactionSkeleton.t) (cb : string → M string)
    (b b' : Builder.t) :
  addHeaderDeps t cb b = (Ok t', b') → same_cells t t'.
Proof.
  unfold addHeaderDeps. destruct (negb _); [done|].
  intros (u & b1 & _ & [= <- _])%bind_Ok. done.
Qed.

Lemma addInputSinces_entries_Ok (cb : Cell.t → M Z) (entries : list (nat * Cell.t)) :
  ∀ (t t' : TransactionSkeleton.t) (b b' : Builder.t),
  addInputSinces_entries cb entries t b = (Ok t', b') → same_cells t t'.
Proof.
  induction entries as [|[i c] entries IH]; intros t t' b b'.
  { by intros [= <- _]. }
  cbn [addInputSinces_entries]. rewrite bind_lift.
  destruct (isDAOWithdrawal c) as [[]|]; [|by apply IH|done].
  intros (since & b1 & _ & Hrest)%bind_Ok. by apply IH in Hrest.
Qed.

Lemma addInputSinces_Ok (t t' : TransactionSkeleton.t) (cb : Cell.t → M Z)
    (b b' : Builder.t) :
  addInputSinces t cb b = (Ok t', b') → same_cells t t'.
Proof.
  unfold addInputSinces. destruct (negb _); [done|]. apply addInputSinces_entries_Ok.
Qed.

Lemma addWitnessPlaceholders_inputs_Ok (accountLock : Script.t)
    (cb : string → M string) (cs : list Cell.t) :
  ∀ (n : nat) (t t' : TransactionSkeleton.t) (b b' : Builder.t),
  addWitnessPlaceholders_inputs accountLock cb cs n t b = (Ok t', b') →
  same_cells t t'.
Proof.
  induction cs as [|c cs IH]; intros n t t' b b'.
  { by intros [= <- _]. }
  cbn [addWitnessPlaceholders_inputs].
  intros (pad & b1 & _ & (isDeposit & b2 & _ & (it & b3 & _ & Hrest)%bind_Ok)%bind_Ok)%bind_Ok.
  by apply IH in Hrest.
Qed.

Lemma addWitnessPlaceholders_Ok (t t' : TransactionSkeleton.t)
    (accountLock : Script.t) (cb : string → M string) (b b' : Builder.t) :
  addWitnessPlaceholders t accountLock cb b = (Ok t', b') → same_cells t t'.
Proof.
  unfold addWitnessPlaceholders. destruct (negb _); [done|].
  apply addWitnessPlaceholders_inputs_Ok.
Qed.

(** An input without a block number stops [addHeaderDeps], whatever the
    callback does. *)
Lemma addHeaderDeps_inputs_missing (cb : string → M string) (cs : list Cell.t) :
  Exists (λ c, falsy (Cell.blockNumber c) = true) cs →
  ∀ u, never_returns (addHeaderDeps_inputs cb cs u).
Proof.
  induction cs as [|c cs IH]; intros Hex u; [by inversion Hex|].
  cbn [addHeaderDeps_inputs].
  destruct (falsy (Cell.blockNumber c)) eqn:Hbn; [apply never_returns_throw|].
  assert (Hcs : ∀ u, never_returns (addHeaderDeps_inputs cb cs u)).
  { apply IH. inversion Hex; subst; [congruence|done]. }
  apply never_returns_bind. intros [].
  - apply never_returns_bind. intros h. apply Hcs.
  - apply never_returns_bind. intros [].
    + do 3 (apply never_returns_bind; intros ?). apply Hcs.
    + apply Hcs.
Qed.

(** What a successful [buildWithChange] went through. *)
Lemma buildWithChange_Ok (ckbDelta : Z) (b b' : Builder.t)
    (t' : TransactionSkeleton.t) :
  buildWithChange ckbDelta b = (Ok t', b') →
  (ckbDelta = 0 ∨
   minimalCellCapacityCompatible (changeCell (Builder.accountLock b) ckbDelta)
     <= ckbDelta) ∧
  TransactionSkeleton.inputs t' = Builder.inputs b ∧
  TransactionSkeleton.outputs t' =
    Builder.outputs b ++
    (if ckbDelta =? 0 then [] else [changeCell (Builder.accountLock b) ckbDelta]) ∧
  ∃ t1 t2 b2,
    TransactionSkeleton.inputs t1 = Builder.inputs b ∧
    addHeaderDeps t1 getBlockHash b = (Ok t2, b2).
Proof.
  unfold buildWithChange. rewrite bind_run. unfold this at 1.
  intros (changeCells & b1 & Hchange & Hrest)%bind_Ok.
  assert (b1 = b ∧
          (ckbDelta = 0 ∨
           minimalCellCapacityCompatible (changeCell (Builder.accountLock b) ckbDelta)
             <= ckbDelta) ∧
          changeCells =
            if ckbDelta =? 0 then []
            else [changeCell (Builder.accountLock b) ckbDelta])
    as (-> & Hmin & ->).
  { destruct (Z.eqb_spec ckbDelta 0) as [->|Hne].
    - injection Hchange as <- <-. auto.
    - cbv zeta in Hchange.
      destruct (Z.geb_spec ckbDelta
                  (minimalCellCapacityCompatible
                     (changeCell (Builder.accountLock b) ckbDelta))); [|done].
      injection Hchange as <- <-. split; [done|]. split; [right; lia|done]. }
  cbv zeta in Hrest. rewrite bind_lift in Hrest.
  destruct (addCellDeps _) as [t1|] eqn:H1; [|done].
  apply addCellDeps_Ok in H1 as [[Hi1 Ho1] _].
  apply bind_Ok in Hrest as (t2 & b2 & H2 & Hrest).
  pose proof H2 as H2'. apply addHeaderDeps_Ok in H2' as [Hi2 Ho2].
  apply bind_Ok in Hrest as (t3 & b3 & [Hi3 Ho3]%addInputSinces_Ok & Hrest).
  apply bind_Ok in Hrest as (t4 & b4 & [Hi4 Ho4]%addWitnessPlaceholders_Ok & [= <- _]).
  split; [done|]. split; [|split].
  - rewrite Hi4, Hi3, Hi2, Hi1. done.
  - rewrite Ho4, Ho3, Ho2, Ho1. done.
  - exists t1, t2, b2. split; [by rewrite Hi1|done].
Qed.

Lemma buildWithChange_missing (ckbDelta : Z) (b : Builder.t) :
  Exists (λ c, falsy (Cell.blockNumber c) = true) (Builder.inputs b) →
  ∀ t' b', buildWithChange ckbDelta b ≠ (Ok t', b').
Proof.
  intros Hex t' b' (_&_&_& t1 & t2 & b2 & Hi & Hrun)%buildWithChange_Ok.
  unfold addHeaderDeps in Hrun. destruct (negb _); [done|].
  apply bind_Ok in Hrun as (u & b1 & Hrun & _).
  rewrite <- Hi in Hex. by eapply addHeaderDeps_inputs_missing in Hrun.
Qed.

End Stages.


(** C9. On a skeleton that already has cell dependencies [addCellDeps]
    throws [AlreadyPopulated]; on one that already has header dependencies
    [addHeaderDeps] throws [AlreadyPopulated], without calling the callback
    or touching the builder. *)
Theorem resolvers_reject_populated `{Collaborators}
    (transaction : TransactionSkeleton.t) :
  (TransactionSkeleton.cellDeps transaction ≠ [] →
   addCellDeps transaction = Throw AlreadyPopulated) ∧
  (TransactionSkeleton.headerDeps transaction ≠ [] →
   ∀ cb b, addHeaderDeps transaction cb b = (Throw AlreadyPopulated, b)).
Proof.
  split.
  - intros Hne. unfold addCellDeps.
    by destruct (TransactionSkeleton.cellDeps transaction).
  - intros Hne cb b. unfold addHeaderDeps.
    by destruct (TransactionSkeleton.headerDeps transaction).
Qed.

(** C10. When one of the cells handed to [add input] has no block number,
    [add] throws [MissingBlockNumber] and leaves the builder with the cells
    already put before or after its inputs; every cell handed over is then
    among the builder's inputs, and no later [buildWithChange] on that
    builder returns a skeleton. *)
Theorem add_input_keeps_cells_on_error `{Collaborators} (position : Position)
    (cells : list Cell.t) (b : Builder.t) :
  Exists (λ c, falsy (Cell.blockNumber c) = true) cells →
  let b' := Builder.set_inputs
              match position with
              | start => cells ++ Builder.inputs b
              | end_ => Builder.inputs b ++ cells
              end b in
  add input position cells b = (Throw MissingBlockNumber, b') ∧
  (∀ c, c ∈ cells → c ∈ Builder.inputs b') ∧
  ∀ ckbDelta t b'', buildWithChange ckbDelta b' ≠ (Ok t, b'').
Proof.
  intros Hex b'.
  assert (Hex' : Exists (λ c, falsy (Cell.blockNumber c) = true) (Builder.inputs b')).
  { unfold b'. simpl. destruct position; apply Exists_app; auto. }
  split; [|split].
  - unfold add. rewrite bind_run. unfold modify. rewrite bind_run. unfold this.
    fold b'. replace (existsb _ _) with true; [done|].
    symmetry. apply existsb_exists. apply Exists_exists in Hex' as (c & Hc & Hbn).
    exists c. split; [by apply list_elem_of_In|done].
  - intros c Hc. unfold b'. simpl. destruct position; apply elem_of_app; auto.
  - intros ckbDelta. by apply buildWithChange_missing.
Qed.

Section Examples.
#[local] Existing Instance Demo.collaborators.
Import Demo.

Lemma answers_ext {K V} (b : Builder.t) (cb : K → M V) (f g : K → result V) :
  (∀ k, f k = g k) → answers b cb f → answers b cb g.
Proof.
  intros Hfg Hcb k b1 Hb1. destruct (Hcb k b1 Hb1) as (b2 & Hrun & Hb2).
  exists b2. by rewrite <- Hfg.
Qed.

(** On the demo chain with nothing cached every block number resolves. *)
Lemma demo_getBlockHash_answers (inputs outputs : list Cell.t) :
  answers (builder inputs outputs) getBlockHash (λ n, Ok (hashOf n)).
Proof.
  eapply answers_ext; [|apply getBlockHash_answers]. done.
Qed.

(** A deposit counts for what the DAO helper computes, an ordinary input
    for its capacity. *)
Example getCkbDelta_demo :
  (getCkbDelta
     (builder [deposit5; plainCell 100 alice (Some "0x3")]
              [plainCell 50 bob None])).1
  = Ok (20000000000 + 1000 + 100 - 50).
Proof. vm_compute. reflexivity. Qed.

Example getCkbDelta_header_missing :
  (getCkbDelta
     (builder [daoCell 20000000000 alice DAO_DEPOSIT_DATA None] [])).1
  = Throw HeaderNotFound.
Proof. vm_compute. reflexivity. Qed.

Lemma addHeaderDeps_emits_witness :
  ∃ b',
    addHeaderDeps
      (skeleton [plainCell 100 alice (Some "0x3"); withdrawal7; deposit5] [])
      getBlockHash (builder [] [])
    = (Ok (TransactionSkeleton.update_headerDeps (λ _, ["#0x7"; "#0x5"])
             (skeleton [plainCell 100 alice (Some "0x3"); withdrawal7; deposit5] [])),
       b').
Proof.
  destruct (addHeaderDeps_emits
              (skeleton [plainCell 100 alice (Some "0x3"); withdrawal7; deposit5] [])
              getBlockHash hashOf (builder [] [])) as [Hemit _].
  - reflexivity.
  - apply demo_getBlockHash_answers.
  - repeat (constructor; [by intros [=]|]). constructor.
  - apply Hemit. repeat constructor.
Defined.

Example deposit_then_withdrawal_two_hashes :
  (addHeaderDeps (skeleton [deposit5; withdrawal7] []) getBlockHash (builder [] [])).1
  = Ok (TransactionSkeleton.update_headerDeps (λ _, ["#0x5"; "#0x7"])
          (skeleton [deposit5; withdrawal7] [])).
Proof. vm_compute. reflexivity. Qed.

Lemma addCellDeps_union_witness :
  addCellDeps (skeleton [withdrawal7; plainCell 100 alice (Some "0x3")] [limitCell])
  = Ok (TransactionSkeleton.update_cellDeps
          (λ _, [cellDepOf (Some "SECP256K1"); cellDepOf (Some "LIMIT_DAO");
                 cellDepOf (Some "DAO")])
          (skeleton [withdrawal7; plainCell 100 alice (Some "0x3")] [limitCell])).
Proof.
  destruct (addCellDeps_union
              (skeleton [withdrawal7; plainCell 100 alice (Some "0x3")] [limitCell]))
    as (_ & _ & Hemit & _).
  - reflexivity.
  - reflexivity.
  - apply (Hemit [[cellDepOf (Some "SECP256K1")]; [cellDepOf (Some "SECP256K1")];
                  [cellDepOf (Some "LIMIT_DAO"); cellDepOf (Some "DAO")];
                  [cellDepOf (Some "DAO")]]).
    repeat constructor.
Defined.

Example addCellDeps_unknown_lock :
  addCellDeps (skeleton [plainCell 100 (Script.mk "0xdead" "type" "0x") (Some "0x3")] [])
  = Throw UnresolvedScript.
Proof. reflexivity. Qed.


(** Two inputs under a lock of the per-occurrence kind are both padded. *)
Example pwlock_pads_every_occurrence :
  (addWitnessPlaceholders
     (skeleton [plainCell 100 pwAlice (Some "0x3"); plainCell 100 pwAlice (Some "0x4")] [])
     pwAlice getBlockHash (builder [] [])).1
  = Ok (TransactionSkeleton.update_witnesses
          (λ _, map WitnessArgs_pack
                  [WitnessArgs.mk (Some signaturePlaceholder) None None;
                   WitnessArgs.mk (Some signaturePlaceholder) None None])
          (skeleton [plainCell 100 pwAlice (Some "0x3");
                     plainCell 100 pwAlice (Some "0x4")] [])).
Proof. vm_compute. reflexivity. Qed.


Example buildWithChange_dust :
  (buildWithChange 400
     (builder [plainCell 9000000400 alice (Some "0x3")]
              [plainCell 9000000000 bob None])).1 = Throw InsufficientFunds.
Proof. reflexivity. Qed.

Example buildWithChange_exact :
  match (buildWithChange 0
           (builder [plainCell 9000000000 alice (Some "0x3")]
                    [plainCell 9000000000 bob None])).1 with
  | Ok t' => TransactionSkeleton.outputs t' = [plainCell 9000000000 bob None]
  | Throw _ => False
  end.
Proof. vm_compute. reflexivity. Qed.

(** Two passes: a 400-byte transaction at the default rate pays 400, taken
    from the change. *)
Example toTransactionSkeleton_demo :
  match (toTransactionSkeleton
           (builder [plainCell 16000000000 alice (Some "0x3")]
                    [plainCell 9000000000 bob None])).1 with
  | Ok (t', fee) =>
      fee = 400 ∧
      TransactionSkeleton.outputs t' =
        [plainCell 9000000000 bob None; plainCell (7000000000 - 400) alice None]
  | Throw _ => False
  end.
Proof. vm_compute. done. Qed.

Lemma resolvers_reject_populated_witness :
  addCellDeps (TransactionSkeleton.mk [cellDepOf (Some "DAO")] ["#0x1"] [] [] [] ∅)
    = Throw AlreadyPopulated ∧
  addHeaderDeps (TransactionSkeleton.mk [cellDepOf (Some "DAO")] ["#0x1"] [] [] [] ∅)
    getBlockHash (builder [] []) = (Throw AlreadyPopulated, builder [] []).
Proof.
  destruct (resolvers_reject_populated
              (TransactionSkeleton.mk [cellDepOf (Some "DAO")] ["#0x1"] [] [] [] ∅))
    as [Hcell Hheader].
  split; [apply Hcell | apply Hheader]; discriminate.
Defined.

Lemma add_input_keeps_cells_on_error_witness :
  add input end_ [plainCell 100 alice None]
    (builder [plainCell 100 alice (Some "0x3")] [])
  = (Throw MissingBlockNumber,
     builder [plainCell 100 alice (Some "0x3"); plainCell 100 alice None] []).
Proof.
  destruct (add_input_keeps_cells_on_error end_ [plainCell 100 alice None]
              (builder [plainCell 100 alice (Some "0x3")] [])) as [Hadd _].
  - repeat constructor.
  - exact Hadd.
Defined.

(** C1: the code at a maturity-deposit input. The deposit made in block 5
    puts the hash of block 5 at position 0 of the header dependencies, but
    the witness builder looks for the hash of the block whose number the
    payload holds, which for a deposit is block 0: the build throws
    [HeaderDepNotFound]. Next to a deposit made in block 0 the build goes
    through, and the witness of the block-5 deposit carries position 0, that
    of the hash of block 0, while the hash of its own block is at position
    1. *)
Theorem buildWithChange_deposit_lookup :
  (addHeaderDeps (skeleton [deposit5] []) getBlockHash (builder [] [])).1
    = Ok (TransactionSkeleton.update_headerDeps (λ _, [hashOf "0x5"])
            (skeleton [deposit5] [])) ∧
  (buildWithChange 0 (builder [deposit5] [])).1 = Throw HeaderDepNotFound ∧
  match (buildWithChange 0 (builder [deposit0; deposit5] [])).1 with
  | Ok t' =>
      TransactionSkeleton.headerDeps t' = [hashOf "0x0"; hashOf "0x5"] ∧
      TransactionSkeleton.witnesses t' !! 1%nat =
        Some (WitnessArgs_pack
                (WitnessArgs.mk (Some []) (Some (replicate 8 Byte.x00)) None))
  | Throw _ => False
  end.
Proof. vm_compute. done. Qed.

End Examples.

(** * Further properties *)

(** * Further properties *)

(** ** Fee and epochs *)

(** X1. For all integers [size] and [feeRate], negative ones included,
    [calculateFee] is the least integer whose thousandfold is at least
    [size * feeRate]. *)
Theorem calculateFee_least (size feeRate : Z) :
  size * feeRate <= calculateFee size feeRate * 1000 ∧
  ∀ fee, size * feeRate <= fee * 1000 → calculateFee size feeRate <= fee.
Proof.
  unfold calculateFee. cbv zeta.
  pose proof (Z.quot_rem' (size * feeRate) 1000) as Hqr.
  assert (Hrem : -1000 < Z.rem (size * feeRate) 1000 < 1000).
  { pose proof (Z.rem_bound_abs (size * feeRate) 1000 ltac:(lia)). lia. }
  assert (Hsign : 0 <= size * feeRate → 0 <= Z.rem (size * feeRate) 1000).
  { intros. apply Z.rem_nonneg; lia. }
  assert (Hsign' : size * feeRate <= 0 → Z.rem (size * feeRate) 1000 <= 0).
  { intros. apply Z.rem_nonpos; lia. }
  destruct (Z.ltb_spec (size * feeRate ÷ 1000 * 1000) (size * feeRate));
    split; try lia; intros fee Hfee; lia.
Qed.

(** X2. Whatever text it is given, [parseEpoch] yields fields within the
    ranges of the packed layout, and the epoch it yields is a fixed point
    of serialising and parsing again. *)
Theorem parseEpoch_normal_form (s : string) :
  epoch_in_range (parseEpoch s) ∧
  parseEpoch (stringifyEpoch (parseEpoch s)) = parseEpoch s.
Proof.
  assert (Hr : epoch_in_range (parseEpoch s)) by apply parseEpoch_in_range.
  split; [done|]. by apply parse_stringify.
Qed.

(** X3. Among epochs of positive length, epochs that compare equal are
    interchangeable in comparisons, and "less than" is transitive. *)
Theorem epochCompare_strict_weak_order (a b c : Epoch.t) :
  0 < Epoch.length a → 0 < Epoch.length b → 0 < Epoch.length c →
  (epochCompare a b = 0 → epochCompare a c = epochCompare b c) ∧
  (epochCompare a b = -1 → epochCompare b c = -1 → epochCompare a c = -1).
Proof.
  intros Ha Hb Hc.
  destruct (epochCompare_cases a b) as [[-> Hab]|[[-> Hab]|[-> Hab]]],
           (epochCompare_cases a c) as [[-> Hac]|[[-> Hac]|[-> Hac]]],
           (epochCompare_cases b c) as [[-> Hbc]|[[-> Hbc]|[-> Hbc]]];
    split; try done; intros; exfalso; nia.
Qed.

Lemma epochCompare_strict_weak_order_witness :
  (epochCompare (parseEpoch "0x70803e8000588") (parseEpoch "0x38401f4000588") = 0 →
   epochCompare (parseEpoch "0x70803e8000588") (parseEpoch "0x7080001000589")
   = epochCompare (parseEpoch "0x38401f4000588") (parseEpoch "0x7080001000589")) ∧
  (epochCompare (parseEpoch "0x70803e8000588") (parseEpoch "0x38401f4000588") = -1 →
   epochCompare (parseEpoch "0x38401f4000588") (parseEpoch "0x7080001000589") = -1 →
   epochCompare (parseEpoch "0x70803e8000588") (parseEpoch "0x7080001000589") = -1).
Proof.
  apply (epochCompare_strict_weak_order
           (parseEpoch "0x70803e8000588") (parseEpoch "0x38401f4000588")
           (parseEpoch "0x7080001000589")); reflexivity.
Defined.

(** ** Deposit or withdrawal *)

Lemma byte_to_N_zero (x : byte) : Byte.to_N x = 0%N → x = Byte.x00.
Proof. by destruct x. Qed.

Lemma littleEndian_zero (buf : list byte) :
  littleEndian buf = 0%N ↔ buf = replicate (length buf) Byte.x00.
Proof.
  induction buf as [|x buf IH]; [done|]. simpl. split.
  - intros Hz. assert (Byte.to_N x = 0%N ∧ littleEndian buf = 0%N) as [Hx Hb] by lia.
    apply byte_to_N_zero in Hx as ->. f_equal. by apply IH.
  - intros [= -> Hb]. apply IH in Hb. rewrite Hb. done.
Qed.

(** X4. No cell is both a deposit and a withdrawal, and neither test
    throws. For a cell typed by the DAO script with an eight-byte payload
    the payload alone decides: it is a deposit exactly when the payload
    decodes to block number 0, so a withdrawal from a deposit made in block
    0 is taken for a deposit. *)
Theorem deposit_withdrawal_discriminant `{Collaborators} (c : Cell.t) :
  (∃ d w, isDAODeposit c = Ok d ∧ isDAOWithdrawal c = Ok w ∧ d && w = false) ∧
  (CellOutput.type (Cell.cellOutput c) = Some (defaultScript "DAO") →
   length (Cell.data c) = 8%nat →
   isDAODeposit c = Ok (bool_decide (littleEndian (Cell.data c) = 0%N)) ∧
   isDAOWithdrawal c = Ok (negb (bool_decide (littleEndian (Cell.data c) = 0%N)))).
Proof.
  rewrite isDAODeposit_kind, isDAOWithdrawal_kind. split.
  - do 2 eexists. split; [done|]. split; [done|].
    by destruct (kind c).
  - intros Ht Hlen. unfold kind. rewrite decide_True by done.
    assert (Hz : littleEndian (Cell.data c) = 0%N ↔ Cell.data c = DAO_DEPOSIT_DATA).
    { rewrite littleEndian_zero, Hlen. done. }
    destruct (decide (Cell.data c = DAO_DEPOSIT_DATA)) as [Hd|Hd].
    + rewrite (bool_decide_eq_true_2 (littleEndian _ = _)) by by apply Hz. done.
    + rewrite (bool_decide_eq_false_2 (littleEndian _ = _)) by by rewrite Hz. done.
Qed.

(** ** Submission *)

Section Send.
Context {Transaction : Type}.
Implicit Types (rpc : RPC.t Transaction).

Lemma sendTransaction_poll_waiting rpc (txHash : string) (rounds : nat) :
  ∀ i, (∀ j, (i ≤ j < i + rounds)%nat → waiting (RPC.getTransaction rpc txHash j)) →
  sendTransaction_poll rpc txHash rounds i
  = (inl TransactionTimedOut, (i + rounds)%nat).
Proof.
  induction rounds as [|rounds IH]; intros i Hw; simpl.
  - by rewrite Nat.add_0_r.
  - destruct (Hw i ltac:(lia)) as [Hs|Hs]; rewrite Hs; simpl.
    all: rewrite IH by (intros j Hj; apply Hw; lia); f_equal; lia.
Qed.

Lemma sendTransaction_poll_settled rpc (txHash : string) (rounds : nat) :
  ∀ i k, (k < rounds)%nat →
  (∀ j, (i ≤ j < i + k)%nat → waiting (RPC.getTransaction rpc txHash j)) →
  ¬ waiting (RPC.getTransaction rpc txHash (i + k)) →
  sendTransaction_poll rpc txHash rounds i
  = (if decide (RPC.getTransaction rpc txHash (i + k) = "committed")
     then inr txHash
     else inl (UnexpectedTransactionState (RPC.getTransaction rpc txHash (i + k))),
     S (i + k)).
Proof.
  induction rounds as [|rounds IH]; intros i k Hk Hw Hs; [lia|].
  destruct k as [|k].
  - rewrite Nat.add_0_r in *. simpl.
    destruct (decide (_ = "committed")); [done|].
    by rewrite decide_False by done.
  - simpl. destruct (Hw i ltac:(lia)) as [Hi|Hi]; rewrite Hi; simpl.
    all: replace (i + S k)%nat with (S i + k)%nat in * by lia;
         apply IH; [lia| |done]; intros j Hj; apply Hw; lia.
Qed.

End Send.

(** X5. Once the node has accepted the transaction, [sendTransaction]
    polls until the first status that is neither pending nor proposed: it
    returns the hash when that status is committed, and throws with that
    status otherwise. If the first [secondsTimeout] statuses are all pending
    or proposed it throws the time-out after exactly [secondsTimeout] polls;
    with a time-out of zero or less it does so without polling at all. It
    never polls more than [secondsTimeout] times. *)
Theorem sendTransaction_polls {Transaction} (signedTransaction : Transaction)
    (rpc : RPC.t Transaction) (secondsTimeout : Z) (txHash : string) :
  RPC.sendTransaction rpc signedTransaction = Some txHash →
  ((∀ j, Z.of_nat j < secondsTimeout → waiting (RPC.getTransaction rpc txHash j)) →
   sendTransaction signedTransaction rpc secondsTimeout
   = (inl TransactionTimedOut, Z.to_nat secondsTimeout)) ∧
  (∀ k, Z.of_nat k < secondsTimeout →
     (∀ j, (j < k)%nat → waiting (RPC.getTransaction rpc txHash j)) →
     ¬ waiting (RPC.getTransaction rpc txHash k) →
     sendTransaction signedTransaction rpc secondsTimeout
     = (if decide (RPC.getTransaction rpc txHash k = "committed")
        then inr txHash
        else inl (UnexpectedTransactionState (RPC.getTransaction rpc txHash k)),
        S k)) ∧
  (Z.of_nat (sendTransaction signedTransaction rpc secondsTimeout).2
   <= Z.max 0 secondsTimeout).
Proof.
  intros Hsend. unfold sendTransaction. rewrite Hsend. split; [|split].
  - intros Hw. rewrite sendTransaction_poll_waiting; [done|].
    intros j Hj. apply Hw. lia.
  - intros k Hk Hw Hs.
    rewrite (sendTransaction_poll_settled rpc txHash _ 0 k); [done|lia| |done].
    intros j Hj. apply Hw. lia.
  - assert (Hle : ∀ rounds i,
              ((sendTransaction_poll rpc txHash rounds i).2 ≤ i + rounds)%nat).
    { induction rounds as [|rounds IH]; intros i; simpl; [lia|].
      repeat case_decide; simpl; try lia. specialize (IH (S i)). lia. }
    specialize (Hle (Z.to_nat secondsTimeout) 0%nat). lia.
Qed.

(** ** The header cache *)

Section Cache.
Context `{Collaborators}.

Lemma set_blockNumber2Header_twice (m m' : gmap (option string) (option Header.t))
    (b : Builder.t) :
  Builder.set_blockNumber2Header m (Builder.set_blockNumber2Header m' b)
  = Builder.set_blockNumber2Header m b.
Proof. done. Qed.

Lemma seeded_lookup (knownHeaders : list Header.t) (n : string) :
  ∀ m : gmap (option string) (option Header.t),
  foldl (λ m h, <[Some (Header.number h) := Some h]> m) m knownHeaders !! Some n
  = match last (filter (λ h, Header.number h = n) knownHeaders) with
    | Some h => Some (Some h)
    | None => m !! Some n
    end.
Proof.
  induction knownHeaders as [|h hs IH]; intros m; [done|].
  cbn [foldl]. rewrite IH, filter_cons.
  destruct (decide (Header.number h = n)) as [Hn|Hn].
  - rewrite last_cons.
    destruct (last (filter (λ h, Header.number h = n) hs)); [done|].
    by rewrite Hn, lookup_insert_eq.
  - destruct (last (filter (λ h, Header.number h = n) hs)); [done|].
    rewrite lookup_insert_ne; [done|congruence].
Qed.

End Cache.

(** X6. [getHeaderByNumber] returns the cached header when there is one and
    what the node answers otherwise, failing with [HeaderNotFound] when the
    node has none. It leaves the builder's lock, fee rate, inputs and
    outputs alone and changes what no block number resolves to; asking
    again for the same number gives the same answer and changes nothing
    more. *)
Theorem getHeaderByNumber_idempotent `{Collaborators} (blockNumber : option string)
    (b : Builder.t) :
  ∃ b',
    getHeaderByNumber blockNumber b = (resolveHeader b blockNumber, b') ∧
    cache_filled b b' ∧
    getHeaderByNumber blockNumber b' = (resolveHeader b blockNumber, b').
Proof.
  destruct (getHeaderByNumber_run blockNumber b) as (b' & Hrun & Hb').
  exists b'. split; [done|]. split; [done|].
  revert Hrun. unfold getHeaderByNumber, resolveHeader, resolve.
  rewrite !bind_run. unfold this.
  destruct (mjoin (Builder.blockNumber2Header b !! blockNumber)) as [h|] eqn:Hget.
  { intros [= <-]. by rewrite Hget. }
  rewrite bind_run. unfold modify.
  destruct (rpc_getHeaderByNumber blockNumber) as [h|] eqn:Hrpc.
  - intros [= <-]. simpl. by rewrite lookup_insert_eq.
  - intros [= <-]. simpl. rewrite lookup_insert_eq. simpl.
    rewrite bind_run. unfold throw. simpl. by rewrite insert_insert_eq.
Qed.

(** X7. A header handed to the constructor is served from the cache: the
    builder returns the last known header with the number asked for,
    whatever the node would answer, and does not change. Only for a number
    that no known header has is the node's answer used. *)
Theorem knownHeaders_served_from_cache `{Collaborators} (accountLock : Script.t)
    (knownHeaders : list Header.t) (feeRate : Z) (n : string) :
  (∀ h, last (filter (λ h, Header.number h = n) knownHeaders) = Some h →
        getHeaderByNumber (Some n) (Builder_new accountLock knownHeaders feeRate)
        = (Ok h, Builder_new accountLock knownHeaders feeRate)) ∧
  (Forall (λ h, Header.number h ≠ n) knownHeaders →
   (getHeaderByNumber (Some n) (Builder_new accountLock knownHeaders feeRate)).1
   = match rpc_getHeaderByNumber (Some n) with
     | Some h => Ok h
     | None => Throw HeaderNotFound
     end).
Proof.
  split.
  - intros h Hlast. unfold getHeaderByNumber. rewrite bind_run. unfold this.
    unfold Builder_new at 1. cbn [Builder.blockNumber2Header].
    by rewrite seeded_lookup, Hlast.
  - intros Hnone.
    destruct (getHeaderByNumber_run (Some n)
                (Builder_new accountLock knownHeaders feeRate)) as (b' & -> & _).
    unfold resolveHeader, resolve, Builder_new. cbn [Builder.blockNumber2Header fst].
    rewrite seeded_lookup.
    replace (filter (λ h, Header.number h = n) knownHeaders) with (@nil Header.t).
    + by rewrite lookup_empty.
    + symmetry. induction Hnone as [|h hs Hh _ IH]; [done|].
      by rewrite filter_cons, decide_False.
Qed.

(** ** Accumulating cells *)

Lemma existsb_falsy_false (cs : list Cell.t) :
  existsb (λ c, falsy (Cell.blockNumber c)) cs = false ↔ all_numbered cs.
Proof.
  unfold all_numbered. induction cs as [|c cs IH]; simpl.
  - split; [constructor|done].
  - rewrite orb_false_iff, IH, Forall_cons. done.
Qed.

(** X8. [add input] returns normally exactly when every input already in
    the builder and every cell handed over carries a block number; the
    inputs then all carry one. Hence a builder that holds an input without
    block number rejects every later [add input], even of no cells. [add
    output] never throws and leaves the inputs as they are. *)
Theorem add_input_succeeds_iff `{Collaborators} (position : Position)
    (cells : list Cell.t) (b : Builder.t) :
  ((add input position cells b).1 = Ok () ↔
   all_numbered (Builder.inputs b) ∧ all_numbered cells) ∧
  ((add input position cells b).1 = Ok () →
   all_numbered (Builder.inputs (add input position cells b).2)) ∧
  (¬ all_numbered (Builder.inputs b) →
   (add input position cells b).1 = Throw MissingBlockNumber) ∧
  ((add output position cells b).1 = Ok () ∧
   Builder.inputs (add output position cells b).2 = Builder.inputs b).
Proof.
  assert (Hrun : ∀ cs,
            cs = match position with
                 | start => cells ++ Builder.inputs b
                 | end_ => Builder.inputs b ++ cells
                 end →
            add input position cells b
            = (if existsb (λ c, falsy (Cell.blockNumber c)) cs
               then Throw MissingBlockNumber else Ok (),
               Builder.set_inputs cs b)).
  { intros cs ->. unfold add. rewrite bind_run. unfold modify. rewrite bind_run.
    unfold this. cbn [Builder.inputs Builder.set_inputs].
    by destruct (existsb _ _). }
  assert (Hall : ∀ cs,
            cs = match position with
                 | start => cells ++ Builder.inputs b
                 | end_ => Builder.inputs b ++ cells
                 end →
            all_numbered cs ↔ all_numbered (Builder.inputs b) ∧ all_numbered cells).
  { intros cs ->. unfold all_numbered. destruct position; rewrite Forall_app; tauto. }
  specialize (Hrun _ eq_refl). specialize (Hall _ eq_refl).
  rewrite Hrun. cbn [fst snd Builder.inputs Builder.set_inputs].
  rewrite <- Hall, <- existsb_falsy_false.
  destruct (existsb _ _) eqn:Hex;
    repeat split; try done; try (by destruct position).
  intros Hn. exfalso. apply Hn. by apply Hall, existsb_falsy_false.
Qed.

(** ** Results that do not depend on the cache *)

Section Gives.
Context `{Collaborators}.

Lemma gives_ret {A} (b : Builder.t) (a : A) : gives b (mret a) (Ok a).
Proof. intros b1 Hb1. by exists b1. Qed.

Lemma gives_throw {A} (b : Builder.t) (e : Error) : gives b (@throw A e) (Throw e).
Proof. intros b1 Hb1. by exists b1. Qed.

Lemma gives_lift {A} (b : Builder.t) (r : result A) : gives b (lift r) r.
Proof. intros b1 Hb1. by exists b1. Qed.

Lemma gives_bind {A B} (b : Builder.t) (m : M A) (k : A → M B) (r : result A)
    (r' : result B) :
  gives b m r →
  (∀ a, r = Ok a → gives b (k a) r') →
  (∀ e, r = Throw e → r' = Throw e) →
  gives b (m ≫= k) r'.
Proof.
  intros Hm Hk He b1 Hb1. destruct (Hm b1 Hb1) as (b2 & Hrun & Hb2).
  rewrite bind_run, Hrun. destruct r as [a|e].
  - by apply Hk.
  - exists b2. by rewrite (He e eq_refl).
Qed.

Lemma answers_gives {K V} (b : Builder.t) (cb : K → M V) (f : K → result V) :
  answers b cb f ↔ ∀ k, gives b (cb k) (f k).
Proof. split; intros Hcb k b1 Hb1; apply (Hcb k b1 Hb1). Qed.

Lemma getHeaderByNumber_gives (b : Builder.t) (k : option string) :
  gives b (getHeaderByNumber k) (resolveHeader b k).
Proof. intros b1 Hb1. apply (getHeaderByNumber_answers b k b1 Hb1). Qed.

Lemma withdrawedDaoSince_gives (b : Builder.t) (c : Cell.t) :
  gives b (withdrawedDaoSince c) (withdrawedDaoSince_result b c).
Proof.
  unfold withdrawedDaoSince, withdrawedDaoSince_result.
  eapply gives_bind; [apply gives_lift| |by rewrite isDAOWithdrawal_kind].
  rewrite isDAOWithdrawal_kind. intros w [= <-].
  destruct (kind c); decide_kind; try apply gives_throw.
  simpl. unfold earliestSince.
  destruct (resolveHeader b (Cell.blockNumber c)) as [wh|e] eqn:Hw.
  2: { eapply gives_bind; [apply getHeaderByNumber_gives|by rewrite Hw|].
       rewrite Hw. by intros ? [= <-]. }
  eapply gives_bind; [apply getHeaderByNumber_gives| |by rewrite Hw].
  rewrite Hw. intros ? [= <-]. simpl.
  destruct (Uint64LE_unpack (Cell.data c)) as [n|e] eqn:Hn.
  2: { eapply gives_bind; [apply gives_lift|done|]. by intros ? [= <-]. }
  eapply gives_bind; [apply gives_lift| |done]. intros ? [= <-]. simpl.
  destruct (resolveHeader b (Some (toHexString n))) as [dh|e] eqn:Hd.
  2: { eapply gives_bind; [apply getHeaderByNumber_gives|by rewrite Hd|].
       rewrite Hd. by intros ? [= <-]. }
  eapply gives_bind; [apply getHeaderByNumber_gives| |by rewrite Hd].
  rewrite Hd. intros ? [= <-]. apply gives_ret.
Qed.

End Gives.

(** X9. [withdrawedDaoSince] throws [NotAWithdrawalCell] for every cell
    that is not a maturity withdrawal, before it looks at any header and
    without touching the builder. For a maturity withdrawal it resolves the
    header of the cell's own block, then the header whose number the payload
    holds, and returns [calculateDaoEarliestSinceCompatible] of the deposit
    header's epoch and the withdrawal header's epoch, in this order. *)
Theorem withdrawedDaoSince_checks_first `{Collaborators} (c : Cell.t) (b : Builder.t) :
  (kind c ≠ MaturityWithdrawal →
   withdrawedDaoSince c b = (Throw NotAWithdrawalCell, b)) ∧
  (kind c = MaturityWithdrawal →
   ∃ b', withdrawedDaoSince c b =
           (withdrawalHeader ← resolveHeader b (Cell.blockNumber c);
            n ← Uint64LE_unpack (Cell.data c);
            depositHeader ← resolveHeader b (Some (toHexString n));
            mret (calculateDaoEarliestSinceCompatible (Header.epoch depositHeader)
                    (Header.epoch withdrawalHeader)), b') ∧
         cache_filled b b').
Proof.
  split.
  - intros Hk. unfold withdrawedDaoSince. rewrite bind_lift, isDAOWithdrawal_kind.
    by rewrite bool_decide_eq_false_2.
  - intros Hk. destruct (withdrawedDaoSince_gives b c b (cache_filled_refl b))
      as (b' & Hrun & Hb').
    exists b'. split; [|done]. rewrite Hrun. unfold withdrawedDaoSince_result.
    by rewrite Hk.
Qed.

(** ** Since values *)

Section Sinces.
Context `{Collaborators}.

Lemma record_sinces_lookup (sinces : list (option Z)) :
  ∀ (index : nat) (m : gmap nat Z) (i : nat),
  record_sinces index sinces m !! i
  = match (if decide (index ≤ i)%nat then mjoin (sinces !! (i - index)%nat) else None) with
    | Some since => Some since
    | None => m !! i
    end.
Proof.
  induction sinces as [|s sinces IH]; intros index m i; cbn [record_sinces].
  { by case_decide. }
  rewrite IH. destruct (decide (S index ≤ i)%nat) as [Hlt|Hge].
  - rewrite decide_True by lia.
    replace (i - index)%nat with (S (i - S index)) by lia. cbn [lookup list_lookup].
    destruct (mjoin _); [done|].
    destruct s; [|done]. rewrite lookup_insert_ne; [done|lia].
  - destruct (decide (index ≤ i)%nat) as [Hle|Hgt].
    + assert (i = index) as -> by lia. rewrite Nat.sub_diag. simpl.
      destruct s; simpl; [by rewrite lookup_insert_eq|done].
    + destruct s; [|done]. rewrite lookup_insert_ne; [done|lia].
Qed.

Lemma sinceOf_cases (b : Builder.t) (c : Cell.t) :
  sinceOf b c =
  match kind c with
  | MaturityWithdrawal =>
      match withdrawedDaoSince_result b c with
      | Ok since => Ok (Some since)
      | Throw e => Throw e
      end
  | _ => Ok None
  end.
Proof.
  unfold sinceOf, withdrawedDaoSince_result. by destruct (kind c).
Qed.

Lemma addInputSinces_entries_gives (b : Builder.t) (cs : list Cell.t) :
  ∀ (index : nat) (t : TransactionSkeleton.t),
  gives b
    (addInputSinces_entries withdrawedDaoSince
       (imap (λ i c, ((index + i)%nat, c)) cs) t)
    (sinces ← mapM (sinceOf b) cs;
     mret (TransactionSkeleton.update_inputSinces (record_sinces index sinces) t)).
Proof.
  induction cs as [|c cs IH]; intros index t.
  { destruct t. apply gives_ret. }
  rewrite imap_cons, Nat.add_0_r. cbn [addInputSinces_entries].
  rewrite mapM_cons, sinceOf_cases.
  assert (Hrest : ∀ (s : option Z),
            gives b
              (addInputSinces_entries withdrawedDaoSince
                 (imap ((λ i c, ((index + i)%nat, c)) ∘ S) cs)
                 (TransactionSkeleton.update_inputSinces
                    (λ m, match s with Some v => <[index:=v]> m | None => m end) t))
              (match mapM (sinceOf b) cs with
               | Ok k => Ok (s :: k)
               | Throw e => Throw e
               end ≫= λ sinces,
                 mret (TransactionSkeleton.update_inputSinces
                         (record_sinces index sinces) t))).
  { intros s. rewrite (imap_ext _ (λ i c, ((S index + i)%nat, c))) 
      by (intros; simpl; f_equal; lia).
    intros b1 Hb1.
    destruct (IH (S index)
                (TransactionSkeleton.update_inputSinces
                   (λ m, match s with Some v => <[index:=v]> m | None => m end) t)
                b1 Hb1) as (b2 & -> & Hb2).
    exists b2. split; [|done]. unfold mbind, result_bind.
    destruct (mapM (sinceOf b) cs); [|done]. by destruct s. }
  eapply gives_bind; [apply gives_lift| |by rewrite isDAOWithdrawal_kind].
  rewrite isDAOWithdrawal_kind. intros w [= <-].
  destruct (kind c) eqn:Hk; decide_kind.
  1,2: specialize (Hrest None); by destruct t.
  destruct (withdrawedDaoSince_result b c) as [since|e] eqn:Hs.
  - eapply gives_bind; [apply withdrawedDaoSince_gives| |by rewrite Hs].
    rewrite Hs. intros ? [= <-]. apply (Hrest (Some since)).
  - eapply gives_bind; [apply withdrawedDaoSince_gives|by rewrite Hs|].
    rewrite Hs. by intros ? [= <-].
Qed.

Lemma addInputSinces_gives (b : Builder.t) (t : TransactionSkeleton.t) :
  TransactionSkeleton.inputSinces t = ∅ →
  gives b (addInputSinces t withdrawedDaoSince)
    (sinces ← mapM (sinceOf b) (TransactionSkeleton.inputs t);
     mret (TransactionSkeleton.update_inputSinces (record_sinces 0 sinces) t)).
Proof.
  intros Hempty. unfold addInputSinces. rewrite Hempty, map_size_empty. simpl.
  rewrite (imap_ext _ (λ i c, ((0 + i)%nat, c))) by done.
  apply addInputSinces_entries_gives.
Qed.

End Sinces.

(** X10. On a skeleton without since values, when the since value of every
    input can be computed, [addInputSinces] with the builder's
    [withdrawedDaoSince] returns the skeleton with a since value at exactly
    the positions of the maturity-withdrawal inputs: the value computed for
    that input. Every other input keeps the default, and nothing else of
    the skeleton changes. *)
Theorem addInputSinces_records `{Collaborators} (transaction : TransactionSkeleton.t)
    (b : Builder.t) (sinces : list (option Z)) :
  TransactionSkeleton.inputSinces transaction = ∅ →
  Forall2 (λ c since, sinceOf b c = Ok since)
    (TransactionSkeleton.inputs transaction) sinces →
  ∃ inputSinces b',
    addInputSinces transaction withdrawedDaoSince b
    = (Ok (TransactionSkeleton.update_inputSinces (λ _, inputSinces) transaction), b') ∧
    cache_filled b b' ∧
    (∀ i, inputSinces !! i = mjoin (sinces !! i)) ∧
    (∀ i c, TransactionSkeleton.inputs transaction !! i = Some c →
       match kind c with
       | MaturityWithdrawal =>
           ∃ since, earliestSince b c = Ok since ∧ inputSinces !! i = Some since
       | _ => inputSinces !! i = None
       end).
Proof.
  intros Hempty Hs.
  destruct (addInputSinces_gives b transaction Hempty b (cache_filled_refl b))
    as (b' & Hrun & Hb').
  exists (record_sinces 0 sinces ∅), b'.
  assert (Hlookup : ∀ i, record_sinces 0 sinces ∅ !! i = mjoin (sinces !! i)).
  { intros i. rewrite record_sinces_lookup, decide_True, Nat.sub_0_r by lia.
    rewrite lookup_empty. by destruct (mjoin _). }
  split; [|split; [done|split; [done|]]].
  - rewrite Hrun. apply mapM_Ok in Hs as ->. simpl.
    unfold mret, result_ret, TransactionSkeleton.update_inputSinces.
    by rewrite Hempty.
  - intros i c Hc. destruct (Forall2_lookup_l _ _ _ _ _ Hs Hc) as (s & Hsi & Hsc).
    rewrite Hlookup, Hsi. simpl. revert Hsc. unfold sinceOf.
    destruct (kind c); try by intros [= <-].
    destruct (earliestSince b c) as [since|]; [|done]. intros [= <-]. eauto.
Qed.

(** ** The build as a function of the builder *)

Lemma result_bind_Ok {A B} (r : result A) (k : A → result B) (y : B) :
  r ≫= k = Ok y → ∃ a, r = Ok a ∧ k a = Ok y.
Proof. destruct r as [a|e]; [eauto|done]. Qed.

Lemma result_bind_Throw {A B} (r : result A) (k : A → result B) (e : Error) :
  r ≫= k = Throw e → r = Throw e ∨ ∃ a, r = Ok a ∧ k a = Throw e.
Proof. destruct r as [a|e']; [eauto|]. intros [= ->]. by left. Qed.

Lemma mapM_Throw_elem {A B} (f : A → result B) (l : list A) (e : Error) :
  mapM f l = Throw e → ∃ x, x ∈ l ∧ f x = Throw e.
Proof.
  induction l as [|x l IH]; [done|]. rewrite mapM_cons.
  destruct (f x) as [y|e'] eqn:Hx.
  - destruct (mapM f l); [done|]. intros [= ->].
    destruct IH as (x' & ? & ?); [done|]. exists x'. split; [by right|done].
  - intros [= ->]. exists x. split; [by left|done].
Qed.

(** One stage of a sequence: the stage is known to give the result that
    [Heq] evaluates, a failure or a value. *)
Ltac gives_fails stage Heq :=
  eapply gives_bind;
  [ stage
  | rewrite Heq; intros ? Hx; discriminate Hx
  | rewrite Heq; intros ? Hx; injection Hx as <-; reflexivity ].

Ltac gives_goes_on stage Heq :=
  eapply gives_bind;
  [ stage
  | rewrite Heq; intros ? Hx; injection Hx as <-
  | rewrite Heq; intros ? Hx; discriminate Hx ].

Section Build.
Context `{Collaborators}.

Lemma resolveHash_filled (b b1 : Builder.t) (n : string) :
  cache_filled b b1 → resolveHash b1 n = resolveHash b n.
Proof. intros Hb1. unfold resolveHash. by rewrite (resolveHeader_filled b b1). Qed.

Lemma addHeaderDeps_gives (b : Builder.t) (t : TransactionSkeleton.t) :
  TransactionSkeleton.headerDeps t = [] →
  gives b (addHeaderDeps t getBlockHash)
    (hashes ← mapM (headerContribution (resolveHash b)) (TransactionSkeleton.inputs t);
     mret (TransactionSkeleton.update_headerDeps
             (λ _, first_occurrences (concat hashes)) t)).
Proof.
  intros Hempty b1 Hb1. unfold addHeaderDeps. rewrite Hempty. simpl.
  destruct (addHeaderDeps_inputs_run b getBlockHash (resolveHash b)
              (TransactionSkeleton.inputs t) (getBlockHash_answers b) [] b1 Hb1)
    as (b2 & Hrun & Hb2).
  exists b2. split; [|done]. rewrite bind_run, Hrun. unfold mbind, result_bind.
  destruct (mapM _ _); [|done]. unfold mret, M_ret, result_ret. do 2 f_equal.
  rewrite foldl_Set_add. unfold TransactionSkeleton.update_headerDeps.
  by rewrite Hempty.
Qed.

Lemma addWitnessPlaceholders_gives (b : Builder.t) (t : TransactionSkeleton.t)
    (accountLock : Script.t) :
  TransactionSkeleton.witnesses t = [] →
  gives b (addWitnessPlaceholders t accountLock getBlockHash)
    (inputTypes ← mapM (inputTypeFor (resolveHash b) (TransactionSkeleton.headerDeps t))
                   (TransactionSkeleton.inputs t);
     mret (TransactionSkeleton.update_witnesses
             (λ w, w ++ map WitnessArgs_pack
                      (zip_with witnessArgsFor
                         (padFlags accountLock
                            (if placeholderPerOccurrence accountLock
                             then length (TransactionSkeleton.inputs t) else 1%nat)
                            (TransactionSkeleton.inputs t))
                         inputTypes)) t)).
Proof.
  intros Hempty b1 Hb1. unfold addWitnessPlaceholders. rewrite Hempty.
  cbn [length Nat.eqb negb]. fold (placeholderPerOccurrence accountLock).
  apply (addWitnessPlaceholders_inputs_run b accountLock getBlockHash (resolveHash b)
           (TransactionSkeleton.inputs t) (getBlockHash_answers b)); done.
Qed.

Lemma addCellDeps_frame (t t' : TransactionSkeleton.t) :
  addCellDeps t = Ok t' →
  ∃ cellDeps, t' = TransactionSkeleton.update_cellDeps (λ _, cellDeps) t.
Proof.
  unfold addCellDeps. destruct (negb _); [done|].
  destruct (addCellDeps_scripts _ _) as [m|]; [|done]. intros [= <-]. eauto.
Qed.

Lemma gives_this {A} (b : Builder.t) (k : Builder.t → M A) (r : result A) :
  (∀ b1, cache_filled b b1 → gives b (k b1) r) → gives b (this ≫= k) r.
Proof.
  intros Hk b1 Hb1. rewrite bind_run. unfold this. by apply (Hk b1 Hb1).
Qed.

Lemma resolvers_gives (b : Builder.t) (t0 : TransactionSkeleton.t) :
  TransactionSkeleton.headerDeps t0 = [] →
  TransactionSkeleton.inputSinces t0 = ∅ →
  TransactionSkeleton.witnesses t0 = [] →
  gives b
    (transaction ← lift (addCellDeps t0);
     transaction ← addHeaderDeps transaction getBlockHash;
     transaction ← addInputSinces transaction withdrawedDaoSince;
     transaction ← addWitnessPlaceholders transaction (Builder.accountLock b)
                     getBlockHash;
     mret transaction)
    (resolvers_result b t0).
Proof.
  intros Hh Hs Hw. unfold resolvers_result.
  destruct (addCellDeps t0) as [t1|e] eqn:H1.
  2: { eapply gives_bind; [apply gives_lift|done|by intros ? [= <-]]. }
  eapply gives_bind; [apply gives_lift| |done]. intros ? [= <-].
  destruct (addCellDeps_frame _ _ H1) as (cellDeps & ->).
  cbn [mbind result_bind].
  set (t1 := TransactionSkeleton.update_cellDeps (λ _, cellDeps) t0).
  destruct (mapM (headerContribution (resolveHash b)) (TransactionSkeleton.inputs t1))
    as [hashes|e] eqn:H2.
  2: { gives_fails ltac:(by apply addHeaderDeps_gives) H2. }
  gives_goes_on ltac:(by apply addHeaderDeps_gives) H2. cbn [mbind result_bind]. cbv zeta.
  set (t2 := TransactionSkeleton.update_headerDeps (λ _, _) t1).
  destruct (mapM (sinceOf b) (TransactionSkeleton.inputs t2)) as [sinces|e] eqn:H3.
  2: { gives_fails ltac:(by apply addInputSinces_gives) H3. }
  gives_goes_on ltac:(by apply addInputSinces_gives) H3. cbn [mbind result_bind].
  set (t3 := TransactionSkeleton.update_inputSinces _ t2).
  destruct (mapM (inputTypeFor (resolveHash b) (TransactionSkeleton.headerDeps t3))
              (TransactionSkeleton.inputs t3)) as [its|e] eqn:H4.
  2: { gives_fails ltac:(by apply addWitnessPlaceholders_gives) H4. }
  gives_goes_on ltac:(by apply addWitnessPlaceholders_gives) H4. apply gives_ret.
Qed.

Lemma buildWithChange_gives (b : Builder.t) (ckbDelta : Z) :
  gives b (buildWithChange ckbDelta) (buildWithChange_result b ckbDelta).
Proof.
  unfold buildWithChange, buildWithChange_result, changeCells_result.
  apply gives_this. intros b1 (Hlock & _ & Hin & Hout & _).
  rewrite Hlock, Hin, Hout.
  destruct (ckbDelta =? 0).
  { eapply gives_bind; [apply gives_ret| |done]. intros ? [= <-].
    by apply resolvers_gives. }
  cbv zeta.
  destruct (ckbDelta >=? _).
  - eapply gives_bind; [apply gives_ret| |done]. intros ? [= <-].
    by apply resolvers_gives.
  - eapply gives_bind; [apply gives_throw|done|by intros ? [= <-]].
Qed.

End Build.

Section BuildFacts.
Context `{Collaborators}.

(** *** Keys of the dependency map *)

Lemma Map_set_keys {V} (k : string) (v : V) (m : JsMap V) :
  (Map_set k v m).*1 = if decide (k ∈ m.*1) then m.*1 else m.*1 ++ [k].
Proof.
  induction m as [|[k' v'] m IH]; [done|]. cbn [Map_set].
  destruct (decide (k' = k)) as [->|Hne].
  - rewrite !fmap_cons. cbn [fst]. by rewrite decide_True by left.
  - rewrite !fmap_cons, IH. cbn [fst].
    destruct (decide (k ∈ m.*1)), (decide (k ∈ k' :: m.*1)); set_solver.
Qed.

Lemma Map_set_well_keyed (m : JsMap CellDep.t) (d : CellDep.t) :
  well_keyed m → well_keyed (Map_set (serializeCellDep d) d m).
Proof.
  intros [Hk Hn]. split.
  - clear Hn. induction Hk as [|[k d'] m Hkd Hk IH]; [by repeat constructor|].
    cbn [Map_set]. case_decide; constructor; auto.
  - rewrite Map_set_keys. case_decide; [done|].
    apply NoDup_app. split; [done|]. split; [set_solver|apply NoDup_singleton].
Qed.

Lemma addCellDeps_scripts_well_keyed (scripts : list Script.t) :
  ∀ m m', well_keyed m → addCellDeps_scripts scripts m = Ok m' → well_keyed m'.
Proof.
  induction scripts as [|s scripts IH]; intros m m' Hm; cbn [addCellDeps_scripts].
  { by intros [= <-]. }
  destruct (Map_get _ _) as [ds|]; [|done]. apply IH.
  clear IH. revert m Hm. induction ds as [|d ds IH]; intros m Hm; [done|].
  simpl. by apply IH, Map_set_well_keyed.
Qed.

Lemma well_keyed_NoDup_values (m : JsMap CellDep.t) :
  well_keyed m → NoDup (Map_values m).
Proof.
  intros [Hk Hn]. unfold Map_values.
  apply (NoDup_fmap_1 serializeCellDep).
  replace (serializeCellDep <$> m.*2) with m.*1; [done|].
  clear Hn. induction Hk as [|[k d] m Hkd _ IH]; [done|].
  rewrite !fmap_cons. simpl in *. by rewrite Hkd, IH.
Qed.

Lemma addCellDeps_NoDup (t t' : TransactionSkeleton.t) :
  TransactionSkeleton.cellDeps t = [] → addCellDeps t = Ok t' →
  NoDup (TransactionSkeleton.cellDeps t').
Proof.
  intros Hempty. unfold addCellDeps. rewrite Hempty. simpl.
  destruct (addCellDeps_scripts _ _) as [m|] eqn:Hm; [|done]. intros [= <-]. simpl.
  rewrite Hempty. simpl. eapply well_keyed_NoDup_values, addCellDeps_scripts_well_keyed;
    [|done]. split; constructor.
Qed.

Lemma addCellDeps_scripts_Throw (scripts : list Script.t) :
  ∀ m e, addCellDeps_scripts scripts m = Throw e → e = UnresolvedScript.
Proof.
  induction scripts as [|s scripts IH]; intros m e; cbn [addCellDeps_scripts]; [done|].
  destruct (Map_get _ _); [apply IH|by intros [= <-]].
Qed.

Lemma addCellDeps_Throw (t : TransactionSkeleton.t) (e : Error) :
  TransactionSkeleton.cellDeps t = [] → addCellDeps t = Throw e →
  e = UnresolvedScript.
Proof.
  intros Hempty. unfold addCellDeps. rewrite Hempty. simpl.
  destruct (addCellDeps_scripts _ _) as [m|e'] eqn:Hm; [done|]. intros [= <-].
  by eapply addCellDeps_scripts_Throw.
Qed.

(** *** What each lookup can throw *)

Lemma resolveHeader_Throw (b : Builder.t) (k : option string) (e : Error) :
  resolveHeader b k = Throw e → e = HeaderNotFound.
Proof. unfold resolveHeader. destruct (resolve b k); [done|by intros [= <-]]. Qed.

Lemma resolveHash_Throw (b : Builder.t) (n : string) (e : Error) :
  resolveHash b n = Throw e → e = HeaderNotFound.
Proof.
  unfold resolveHash. destruct (resolveHeader b (Some n)) eqn:Hr; [done|].
  intros [= <-]. by eapply resolveHeader_Throw.
Qed.

Lemma Uint64LE_unpack_Throw (buf : list byte) (e : Error) :
  Uint64LE_unpack buf = Throw e → e = CodecError.
Proof. unfold Uint64LE_unpack. case_match; [done|by intros [= <-]]. Qed.

Lemma Uint64LE_pack_Throw (n : Z) (e : Error) :
  Uint64LE_pack n = Throw e → e = CodecError.
Proof. unfold Uint64LE_pack. case_match; [done|by intros [= <-]]. Qed.

Lemma headerContribution_Throw (b : Builder.t) (c : Cell.t) (e : Error) :
  headerContribution (resolveHash b) c = Throw e →
  (e = MissingBlockNumber ∧ falsy (Cell.blockNumber c) = true) ∨
  e = HeaderNotFound ∨ e = CodecError.
Proof.
  rewrite headerContribution_cases. destruct (falsy _); [intros [= <-]; auto|].
  destruct (kind c); [done| |].
  - destruct (resolveHash b _) eqn:Hr; [done|]. intros [= <-].
    right. left. by eapply resolveHash_Throw.
  - destruct (resolveHash b _) eqn:Hr.
    2: { intros [= <-]. right. left. by eapply resolveHash_Throw. }
    destruct (Uint64LE_unpack _) eqn:Hu.
    2: { intros [= <-]. right. right. by eapply Uint64LE_unpack_Throw. }
    destruct (resolveHash b (toHexString _)) eqn:Hr'; [done|].
    intros [= <-]. right. left. by eapply resolveHash_Throw.
Qed.

Lemma sinceOf_Throw (b : Builder.t) (c : Cell.t) (e : Error) :
  sinceOf b c = Throw e → e = HeaderNotFound ∨ e = CodecError.
Proof.
  unfold sinceOf. destruct (kind c); try done. unfold earliestSince.
  destruct (resolveHeader b (Cell.blockNumber c)) eqn:Hw.
  2: { intros [= <-]. left. by eapply resolveHeader_Throw. }
  simpl. destruct (Uint64LE_unpack _) eqn:Hu.
  2: { intros [= <-]. right. by eapply Uint64LE_unpack_Throw. }
  simpl. destruct (resolveHeader b (Some _)) eqn:Hd; [done|].
  intros [= <-]. left. by eapply resolveHeader_Throw.
Qed.

Lemma inputTypeFor_Throw (b : Builder.t) (hd : list string) (c : Cell.t) (e : Error) :
  inputTypeFor (resolveHash b) hd c = Throw e →
  e = HeaderNotFound ∨ e = CodecError ∨ e = HeaderDepNotFound.
Proof.
  rewrite inputTypeFor_cases. destruct (kind c); try done.
  destruct (Uint64LE_unpack _) eqn:Hu.
  2: { intros [= <-]. right. left. by eapply Uint64LE_unpack_Throw. }
  destruct (resolveHash b _) eqn:Hr.
  2: { intros [= <-]. left. by eapply resolveHash_Throw. }
  case_match; [intros [= <-]; auto|].
  destruct (Uint64LE_pack _) eqn:Hp; [done|].
  intros [= <-]. right. left. by eapply Uint64LE_pack_Throw.
Qed.

Lemma record_sinces_empty_lookup (sinces : list (option Z)) (i : nat) :
  record_sinces 0 sinces ∅ !! i = mjoin (sinces !! i).
Proof.
  rewrite record_sinces_lookup, decide_True, Nat.sub_0_r by lia.
  rewrite lookup_empty. by destruct (mjoin _).
Qed.

(** The shape of what the resolvers return on a fresh skeleton. *)
Lemma resolvers_result_Ok (b : Builder.t) (t0 t : TransactionSkeleton.t) :
  TransactionSkeleton.cellDeps t0 = [] →
  TransactionSkeleton.inputSinces t0 = ∅ →
  TransactionSkeleton.witnesses t0 = [] →
  resolvers_result b t0 = Ok t →
  TransactionSkeleton.inputs t = TransactionSkeleton.inputs t0 ∧
  TransactionSkeleton.outputs t = TransactionSkeleton.outputs t0 ∧
  length (TransactionSkeleton.witnesses t) = length (TransactionSkeleton.inputs t0) ∧
  NoDup (TransactionSkeleton.cellDeps t) ∧
  NoDup (TransactionSkeleton.headerDeps t) ∧
  ∃ sinces,
    Forall2 (λ c since, sinceOf b c = Ok since) (TransactionSkeleton.inputs t0) sinces ∧
    ∀ i, TransactionSkeleton.inputSinces t !! i = mjoin (sinces !! i).
Proof.
  intros Hc Hs Hw. unfold resolvers_result.
  intros (t1 & H1 & Hrest)%result_bind_Ok.
  pose proof (addCellDeps_NoDup _ _ Hc H1) as Hnd.
  destruct (addCellDeps_frame _ _ H1) as (cellDeps & ->).
  apply result_bind_Ok in Hrest as (hashes & H2 & Hrest).
  cbv zeta in Hrest.
  apply result_bind_Ok in Hrest as (sinces & H3 & Hrest).
  apply result_bind_Ok in Hrest as (its & H4 & [= <-]).
  cbn [TransactionSkeleton.inputs TransactionSkeleton.outputs
       TransactionSkeleton.witnesses TransactionSkeleton.cellDeps
       TransactionSkeleton.headerDeps TransactionSkeleton.inputSinces
       TransactionSkeleton.update_cellDeps TransactionSkeleton.update_headerDeps
       TransactionSkeleton.update_inputSinces TransactionSkeleton.update_witnesses] in *.
  repeat split; try done.
  - rewrite Hw. cbn [app]. rewrite length_map, length_zip_with, length_padFlags.
    apply mapM_Ok, Forall2_length in H4. lia.
  - apply NoDup_first_occurrences.
  - exists sinces. split; [by apply mapM_Ok|]. intros i. rewrite Hs.
    apply record_sinces_empty_lookup.
Qed.

Lemma resolvers_result_Throw (b : Builder.t) (t0 : TransactionSkeleton.t) (e : Error) :
  TransactionSkeleton.cellDeps t0 = [] →
  resolvers_result b t0 = Throw e →
  build_error e ∧
  (e = MissingBlockNumber → ¬ all_numbered (TransactionSkeleton.inputs t0)).
Proof.
  intros Hc. unfold resolvers_result, build_error.
  intros [H1|(t1 & H1 & Hrest)]%result_bind_Throw.
  { apply addCellDeps_Throw in H1 as ->; [|done]. split; [auto 10|done]. }
  destruct (addCellDeps_frame _ _ H1) as (cellDeps & ->).
  cbn [TransactionSkeleton.inputs TransactionSkeleton.update_cellDeps] in Hrest.
  apply result_bind_Throw in Hrest as [H2|(hashes & H2 & Hrest)].
  { apply mapM_Throw_elem in H2 as (c & Hin & Hc').
    apply headerContribution_Throw in Hc' as [[-> Hf]|[->| ->]];
      (split; [auto 10|]); try done.
    intros _ Hall. unfold all_numbered in Hall. rewrite Forall_forall in Hall.
    specialize (Hall c Hin). congruence. }
  cbv zeta in Hrest.
  apply result_bind_Throw in Hrest as [H3|(sinces & H3 & Hrest)].
  { apply mapM_Throw_elem in H3 as (c & Hin & Hc').
    apply sinceOf_Throw in Hc' as [->| ->]; (split; [auto 10|done]). }
  apply result_bind_Throw in Hrest as [H4|(its & H4 & Hrest)]; [|done].
  apply mapM_Throw_elem in H4 as (c & Hin & Hc').
  apply inputTypeFor_Throw in Hc' as [->|[->| ->]]; (split; [auto 10|done]).
Qed.

End BuildFacts.

Section BuildTop.
Context `{Collaborators}.

Lemma getCkbDelta_gives (b : Builder.t) :
  gives b getCkbDelta
    (caps ← mapM (effectiveCapacity b) (Builder.inputs b);
     mret (total caps - total (map capacityOf (Builder.outputs b)))).
Proof.
  unfold getCkbDelta. apply gives_this. intros b1 (_ & _ & Hin & _ & _).
  rewrite Hin. intros b2 Hb2.
  destruct (getCkbDelta_inputs_run b (Builder.inputs b) 0 b2 Hb2) as (b3 & Hrun & Hb3).
  exists b3. split; [|done]. rewrite bind_run, Hrun.
  destruct (mapM (effectiveCapacity b) (Builder.inputs b)) as [caps|e]; [|done].
  unfold mbind, result_bind, M_bind, this, mret, M_ret, result_ret.
  rewrite foldl_sub_capacity. destruct Hb3 as (_&_&_&->&_). done.
Qed.

Lemma total_app (l1 l2 : list Z) : total (l1 ++ l2) = total l1 + total l2.
Proof. unfold total. induction l1 as [|x l1 IH]; simpl; lia. Qed.

End BuildTop.

(** X11. [buildWithChange] never changes the builder's lock, fee rate,
    inputs or outputs, whether it returns or throws; it only caches headers
    without changing what a block number resolves to. Run again, right away
    or after any further header lookups, it returns the same skeleton or
    throws the same error. *)
Theorem buildWithChange_repeatable `{Collaborators} (ckbDelta : Z) (b b' : Builder.t)
    (r : result TransactionSkeleton.t) :
  buildWithChange ckbDelta b = (r, b') →
  cache_filled b b' ∧
  ∀ b1, cache_filled b b1 →
    ∃ b2, buildWithChange ckbDelta b1 = (r, b2) ∧ cache_filled b b2.
Proof.
  intros Hrun.
  destruct (buildWithChange_gives b ckbDelta b (cache_filled_refl b))
    as (b2 & Hrun' & Hb2).
  rewrite Hrun in Hrun'. injection Hrun' as -> ->. split; [done|].
  apply buildWithChange_gives.
Qed.

(** X12. Every skeleton that [buildWithChange] returns has the builder's
    inputs, one witness per input, no cell dependency and no header
    dependency twice, and a since value only at positions of
    maturity-withdrawal inputs. *)
Theorem buildWithChange_well_formed `{Collaborators} (ckbDelta : Z) (b b' : Builder.t)
    (t : TransactionSkeleton.t) :
  buildWithChange ckbDelta b = (Ok t, b') →
  TransactionSkeleton.inputs t = Builder.inputs b ∧
  length (TransactionSkeleton.witnesses t) = length (TransactionSkeleton.inputs t) ∧
  NoDup (TransactionSkeleton.cellDeps t) ∧
  NoDup (TransactionSkeleton.headerDeps t) ∧
  ∀ i since, TransactionSkeleton.inputSinces t !! i = Some since →
    ∃ c, TransactionSkeleton.inputs t !! i = Some c ∧ kind c = MaturityWithdrawal.
Proof.
  intros Hrun.
  destruct (buildWithChange_gives b ckbDelta b (cache_filled_refl b))
    as (b2 & Hrun' & _).
  rewrite Hrun in Hrun'. injection Hrun' as Hres _. symmetry in Hres.
  unfold buildWithChange_result in Hres.
  apply result_bind_Ok in Hres as (changeCells & _ & Hres).
  apply resolvers_result_Ok in Hres as (Hi & _ & Hw & Hc & Hh & sinces & Hs & Hl);
    try done.
  cbn [TransactionSkeleton.inputs TransactionSkeleton.update_outputs
       TransactionSkeleton.update_inputs TransactionSkeleton.empty app] in *.
  rewrite Hi. repeat split; try done.
  intros i since. rewrite Hl. intros Hsome.
  destruct (sinces !! i) as [[s|]|] eqn:Hsi; try done.
  destruct (Forall2_lookup_r _ _ _ _ _ Hs Hsi) as (c & Hc' & Hsc).
  exists c. split; [done|]. revert Hsc. unfold sinceOf.
  by destruct (kind c).
Qed.

(** X13. [buildWithChange] throws nothing but [InsufficientFunds],
    [UnresolvedScript], [MissingBlockNumber], [HeaderNotFound], the codec's
    error and [HeaderDepNotFound]: the guards of the resolvers against a
    populated skeleton and the guard of [withdrawedDaoSince] never fire in a
    build. It throws [MissingBlockNumber] only when some input of the
    builder carries no block number. *)
Theorem buildWithChange_errors `{Collaborators} (ckbDelta : Z) (b b' : Builder.t)
    (e : Error) :
  buildWithChange ckbDelta b = (Throw e, b') →
  (e = InsufficientFunds ∨ e = UnresolvedScript ∨ e = MissingBlockNumber ∨
   e = HeaderNotFound ∨ e = CodecError ∨ e = HeaderDepNotFound) ∧
  (e = MissingBlockNumber → ¬ all_numbered (Builder.inputs b)).
Proof.
  intros Hrun.
  destruct (buildWithChange_gives b ckbDelta b (cache_filled_refl b))
    as (b2 & Hrun' & _).
  rewrite Hrun in Hrun'. injection Hrun' as Hres _. symmetry in Hres.
  unfold buildWithChange_result in Hres.
  apply result_bind_Throw in Hres as [Hch|(changeCells & _ & Hres)].
  - unfold changeCells_result in Hch. repeat case_match; try done.
    injection Hch as <-. split; [auto|done].
  - by apply resolvers_result_Throw in Hres.
Qed.

(** X14. When [toTransactionSkeleton] returns a skeleton and a fee, the
    effective capacities of the inputs add up to the capacities of the
    skeleton's outputs plus the fee; the fee is [calculateFee] of the size
    of the skeleton built with the whole delta as change, at the builder's
    fee rate; and the builder keeps its inputs and outputs. *)
Theorem toTransactionSkeleton_balances `{Collaborators} (b b' : Builder.t)
    (t : TransactionSkeleton.t) (fee : Z) :
  toTransactionSkeleton b = (Ok (t, fee), b') →
  ∃ caps provisional b1 b2,
    mapM (effectiveCapacity b) (Builder.inputs b) = Ok caps ∧
    cache_filled b b1 ∧
    buildWithChange (total caps - total (map capacityOf (Builder.outputs b))) b1
      = (Ok provisional, b2) ∧
    fee = calculateFee (txSize provisional) (Builder.feeRate b) ∧
    total caps = total (map capacityOf (TransactionSkeleton.outputs t)) + fee ∧
    TransactionSkeleton.inputs t = Builder.inputs b ∧
    cache_filled b b'.
Proof.
  unfold toTransactionSkeleton.
  intros (ckbDelta & b1 & Hdelta & Hrest)%bind_Ok.
  apply bind_Ok in Hrest as (provisional & b2 & Hprov & Hrest).
  rewrite bind_run in Hrest. unfold this in Hrest. cbv zeta in Hrest.
  apply bind_Ok in Hrest as (t' & b3 & Hfinal & [= <- <- <-]).
  destruct (getCkbDelta_gives b b (cache_filled_refl b)) as (b1' & Hd & Hb1).
  rewrite Hdelta in Hd. injection Hd as Hd <-. symmetry in Hd.
  apply result_bind_Ok in Hd as (caps & Hcaps & [= <-]).
  destruct (buildWithChange_gives b
              (total caps - total (map capacityOf (Builder.outputs b))) b1 Hb1)
    as (b2' & Hp & Hb2).
  rewrite Hprov in Hp. injection Hp as _ <-.
  destruct (buildWithChange_gives b
              (total caps - total (map capacityOf (Builder.outputs b))
               - calculateFee (txSize provisional) (Builder.feeRate b2)) b2 Hb2)
    as (b3' & Hf & Hb3).
  rewrite Hfinal in Hf. injection Hf as _ <-.
  pose proof Hb2 as (_ & Hrate & Hin2 & Hout2 & _).
  apply buildWithChange_Ok in Hfinal as (_ & Hi & Ho & _).
  exists caps, provisional, b1, b2. rewrite Hrate in *.
  split; [done|]. split; [done|]. split; [done|]. split; [done|].
  split; [|split; [|done]].
  - rewrite Ho, Hout2, map_app, total_app.
    set (fee := calculateFee (txSize provisional) (Builder.feeRate b)).
    destruct (Z.eqb_spec
                (total caps - total (map capacityOf (Builder.outputs b)) - fee) 0)
      as [Hz|Hz].
    + change (total (map capacityOf [])) with 0. lia.
    + change (total (map capacityOf [changeCell (Builder.accountLock b2)
                (total caps - total (map capacityOf (Builder.outputs b)) - fee)]))
        with (total caps - total (map capacityOf (Builder.outputs b)) - fee + 0).
      lia.
  - by rewrite Hi, Hin2.
Qed.

Section BuildHeaders.
Context `{Collaborators}.

Lemma findIndex_found {A} (p : A → bool) (l : list A) :
  findIndex p l ≠ -1 → ∃ x, x ∈ l ∧ p x = true.
Proof.
  induction l as [|x l IH]; [done|]. simpl. destruct (p x) eqn:Hx.
  - intros _. exists x. split; [by left|done].
  - destruct (Z.eqb_spec (findIndex p l) (-1)); [done|]. intros _.
    destruct IH as (y & ? & ?); [done|]. exists y. split; [by right|done].
Qed.

Lemma elem_of_concat_Forall2 {A B} (f : A → result (list B)) (l : list A)
    (ls : list (list B)) (y : B) :
  Forall2 (λ x ys, f x = Ok ys) l ls →
  y ∈ concat ls ↔ ∃ x ys, x ∈ l ∧ f x = Ok ys ∧ y ∈ ys.
Proof.
  induction 1 as [|x ys l ls Hx _ IH]; simpl.
  - split; [by intros ?%elem_of_nil | by intros (?&?&?%elem_of_nil&_)].
  - rewrite elem_of_app, IH. split.
    + intros [Hy|(x'&ys'&?&?&?)]; [exists x, ys | exists x', ys']; set_solver.
    + intros (x'&ys'&[->|?]%elem_of_cons&Hx'&?).
      * left. congruence.
      * right. eauto.
Qed.

(** What the resolvers leave in the header dependencies and what they
    needed for the witnesses. *)
Lemma resolvers_result_headers (b : Builder.t) (t0 t : TransactionSkeleton.t) :
  resolvers_result b t0 = Ok t →
  ∃ hashes inputTypes,
    Forall2 (λ c hs, headerContribution (resolveHash b) c = Ok hs)
      (TransactionSkeleton.inputs t0) hashes ∧
    TransactionSkeleton.headerDeps t = first_occurrences (concat hashes) ∧
    Forall2 (λ c it, inputTypeFor (resolveHash b) (TransactionSkeleton.headerDeps t) c
                     = Ok it)
      (TransactionSkeleton.inputs t0) inputTypes.
Proof.
  unfold resolvers_result. intros (t1 & H1 & Hrest)%result_bind_Ok.
  destruct (addCellDeps_frame _ _ H1) as (cellDeps & ->).
  apply result_bind_Ok in Hrest as (hashes & H2 & Hrest). cbv zeta in Hrest.
  apply result_bind_Ok in Hrest as (sinces & H3 & Hrest).
  apply result_bind_Ok in Hrest as (its & H4 & [= <-]).
  exists hashes, its. split; [by apply mapM_Ok|]. split; [done|]. by apply mapM_Ok.
Qed.

End BuildHeaders.

(** X15. The header dependencies of a skeleton that [buildWithChange]
    returns are exactly the block hashes that its inputs ask for: a hash is
    among them if and only if it is the hash of the block of a
    maturity-deposit or maturity-withdrawal input, or the hash of the block
    whose number the payload of a maturity-withdrawal input holds. *)
Theorem buildWithChange_headerDeps `{Collaborators} (ckbDelta : Z) (b b' : Builder.t)
    (t : TransactionSkeleton.t) (h : string) :
  buildWithChange ckbDelta b = (Ok t, b') →
  h ∈ TransactionSkeleton.headerDeps t ↔
  ∃ c, c ∈ Builder.inputs b ∧
       ((kind c ≠ Ordinary ∧
         resolveHash b (default EmptyString (Cell.blockNumber c)) = Ok h) ∨
        (kind c = MaturityWithdrawal ∧
         ∃ n, Uint64LE_unpack (Cell.data c) = Ok n ∧
              resolveHash b (toHexString n) = Ok h)).
Proof.
  intros Hrun.
  destruct (buildWithChange_gives b ckbDelta b (cache_filled_refl b))
    as (b2 & Hrun' & _).
  rewrite Hrun in Hrun'. injection Hrun' as Hres _. symmetry in Hres.
  unfold buildWithChange_result in Hres.
  apply result_bind_Ok in Hres as (changeCells & _ & Hres).
  apply resolvers_result_headers in Hres as (hashes & _ & Hh & -> & _).
  cbn [TransactionSkeleton.inputs TransactionSkeleton.update_outputs
       TransactionSkeleton.update_inputs TransactionSkeleton.empty app] in Hh.
  rewrite elem_of_first_occurrences, (elem_of_concat_Forall2 _ _ _ _ Hh).
  assert (Hall : ∀ c hs, c ∈ Builder.inputs b →
            headerContribution (resolveHash b) c = Ok hs → h ∈ hs →
            (kind c ≠ Ordinary ∧
             resolveHash b (default EmptyString (Cell.blockNumber c)) = Ok h) ∨
            (kind c = MaturityWithdrawal ∧
             ∃ n, Uint64LE_unpack (Cell.data c) = Ok n ∧
                  resolveHash b (toHexString n) = Ok h)).
  { intros c hs _. rewrite headerContribution_cases.
    destruct (falsy _); [done|]. destruct (kind c).
    - intros [= <-]. by intros ?%elem_of_nil.
    - destruct (resolveHash b _) as [h0|]; [|done]. intros [= <-].
      intros Hh0%list_elem_of_singleton. subst h0. by left.
    - destruct (resolveHash b _) as [h0|]; [|done].
      destruct (Uint64LE_unpack _) as [n|]; [|done].
      destruct (resolveHash b (toHexString n)) as [h1|] eqn:H1; [|done].
      intros [= <-]. intros [->|Hh1%list_elem_of_singleton]%elem_of_cons.
      + by left.
      + subst h1. right. split; [done|]. eauto. }
  split.
  - intros (c & hs & Hc & Hhs & Hin). exists c. split; [done|]. eauto.
  - intros (c & Hc & Hcase).
    apply list_elem_of_lookup in Hc as [i Hi].
    destruct (Forall2_lookup_l _ _ _ _ _ Hh Hi) as (hs & _ & Hhs).
    exists c, hs. split; [by eapply list_elem_of_lookup_2|]. split; [done|].
    revert Hhs. rewrite headerContribution_cases.
    destruct (falsy _); [done|].
    destruct Hcase as [[Hk Hown]|(Hk & n & Hn & Hdep)].
    + destruct (kind c); [done| |]; rewrite Hown.
      * intros [= <-]. by left.
      * destruct (Uint64LE_unpack _); [|done].
        destruct (resolveHash b (toHexString _)); [|done].
        intros [= <-]. by left.
    + rewrite Hk, Hn, Hdep.
      destruct (resolveHash b (default _ _)); [|done].
      intros [= <-]. right. by left.
Qed.

(** X16. With a maturity deposit among the inputs, [buildWithChange]
    returns a skeleton only if block 0 resolves to a hash and that hash is
    among the skeleton's header dependencies, whatever block the deposit is
    in. *)
Theorem buildWithChange_deposit_needs_block_0 `{Collaborators} (ckbDelta : Z)
    (b b' : Builder.t) (t : TransactionSkeleton.t) (c : Cell.t) :
  buildWithChange ckbDelta b = (Ok t, b') →
  c ∈ Builder.inputs b → kind c = MaturityDeposit →
  ∃ h, resolveHash b "0x0" = Ok h ∧ h ∈ TransactionSkeleton.headerDeps t.
Proof.
  intros Hrun Hc Hk.
  destruct (buildWithChange_gives b ckbDelta b (cache_filled_refl b))
    as (b2 & Hrun' & _).
  rewrite Hrun in Hrun'. injection Hrun' as Hres _. symmetry in Hres.
  unfold buildWithChange_result in Hres.
  apply result_bind_Ok in Hres as (changeCells & _ & Hres).
  apply resolvers_result_headers in Hres as (hashes & its & _ & _ & Hits).
  cbn [TransactionSkeleton.inputs TransactionSkeleton.update_outputs
       TransactionSkeleton.update_inputs TransactionSkeleton.empty app] in Hits.
  apply list_elem_of_lookup in Hc as [i Hi].
  destruct (Forall2_lookup_l _ _ _ _ _ Hits Hi) as (it & _ & Hit).
  rewrite inputTypeFor_deposit in Hit by done.
  destruct (resolveHash b "0x0") as [h|]; [|done]. exists h. split; [done|].
  simpl in Hit. case_match eqn:Hidx; [done|].
  apply Z.eqb_neq, findIndex_found in Hidx as (v & Hv & Heq).
  unfold string_eqb in Heq. by apply bool_decide_eq_true in Heq as ->.
Qed.

(** ** The registry *)

Section Registry.
Context `{Collaborators}.




End Registry.


Section Order.
Context `{Collaborators}.

Lemma total_Permutation (l l' : list Z) : l ≡ₚ l' → total l = total l'.
Proof.
  unfold total. induction 1; simpl; lia.
Qed.

Lemma mapM_Ok_Permutation {A B} (f : A → result B) (l l' : list A) (ys : list B) :
  l ≡ₚ l' → mapM f l = Ok ys → ∃ ys', mapM f l' = Ok ys' ∧ ys ≡ₚ ys'.
Proof.
  intros Hperm. revert ys.
  induction Hperm as [|x l l' _ IH|x y l|l l' l'' _ IH1 _ IH2]; intros ys.
  - intros [= <-]. by exists [].
  - rewrite !mapM_cons. intros (v & Hv & Hrest)%result_bind_Ok.
    apply result_bind_Ok in Hrest as (vs & Hvs & [= <-]).
    destruct (IH vs Hvs) as (vs' & -> & Hp). rewrite Hv. exists (v :: vs').
    split; [done|]. by constructor.
  - rewrite !mapM_cons. intros (v & Hv & Hrest)%result_bind_Ok.
    apply result_bind_Ok in Hrest as (vs & Hvs & [= <-]).
    apply result_bind_Ok in Hvs as (w & Hw & Hrest).
    apply result_bind_Ok in Hrest as (ws & Hws & [= <-]).
    rewrite Hw, Hv, Hws. exists (w :: v :: ws). split; [done|]. apply perm_swap.
  - intros Hys. destruct (IH1 ys Hys) as (ys' & Hys' & Hp1).
    destruct (IH2 ys' Hys') as (ys'' & Hys'' & Hp2). exists ys''.
    split; [done|]. by etrans.
Qed.

Lemma effectiveCapacity_ext (b1 b2 : Builder.t) (c : Cell.t) :
  (∀ k, resolve b1 k = resolve b2 k) → effectiveCapacity b1 c = effectiveCapacity b2 c.
Proof.
  intros Hsame. unfold effectiveCapacity, resolveHeader.
  destruct (kind c); [done| |done].
  destruct (Uint64LE_unpack _) as [n|]; [|done]. simpl. by rewrite !Hsame.
Qed.

Lemma getCkbDelta_reordered (b1 b2 : Builder.t) (ckbDelta : Z) :
  Builder.inputs b1 ≡ₚ Builder.inputs b2 →
  Builder.outputs b1 ≡ₚ Builder.outputs b2 →
  (∀ k, resolve b1 k = resolve b2 k) →
  (getCkbDelta b1).1 = Ok ckbDelta → (getCkbDelta b2).1 = Ok ckbDelta.
Proof.
  intros Hin Hout Hsame.
  destruct (getCkbDelta_gives b1 b1 (cache_filled_refl b1)) as (b1' & -> & _).
  destruct (getCkbDelta_gives b2 b2 (cache_filled_refl b2)) as (b2' & -> & _).
  cbn [fst]. intros (caps & Hcaps & [= <-])%result_bind_Ok.
  destruct (mapM_Ok_Permutation _ _ _ _ Hin Hcaps) as (caps' & Hcaps' & Hp).
  assert (Hext : ∀ l, mapM (effectiveCapacity b2) l = mapM (effectiveCapacity b1) l).
  { induction l as [|c l IH]; [done|].
    by rewrite !mapM_cons, IH, (effectiveCapacity_ext b1 b2 c Hsame). }
  rewrite Hext, Hcaps'. simpl. f_equal.
  assert (Houts : total (map capacityOf (Builder.outputs b2))
                  = total (map capacityOf (Builder.outputs b1))).
  { apply total_Permutation. symmetry. apply (fmap_Permutation capacityOf), Hout. }
  rewrite Houts, (total_Permutation _ _ Hp). done.
Qed.

End Order.

(** X18. The delta that [getCkbDelta] returns does not depend on the order
    of the inputs or of the outputs: two builders that hold the same cells
    in any order and resolve block numbers alike return the same delta, or
    both throw. So adding cells at the start or at the end makes no
    difference to it. *)
Theorem getCkbDelta_order_irrelevant `{Collaborators} (b1 b2 : Builder.t)
    (ckbDelta : Z) :
  Builder.inputs b1 ≡ₚ Builder.inputs b2 →
  Builder.outputs b1 ≡ₚ Builder.outputs b2 →
  (∀ k, resolve b1 k = resolve b2 k) →
  (getCkbDelta b1).1 = Ok ckbDelta ↔ (getCkbDelta b2).1 = Ok ckbDelta.
Proof.
  intros Hin Hout Hsame. split; apply getCkbDelta_reordered; done.
Qed.

Section OrderExamples.
#[local] Existing Instance Demo.collaborators.
Import Demo.

Lemma getCkbDelta_order_irrelevant_witness :
  (getCkbDelta
     (builder [plainCell 100 alice (Some "0x3"); deposit5] [plainCell 50 bob None])).1
  = Ok 20000001050.
Proof.
  destruct (getCkbDelta_order_irrelevant
              (builder [deposit5; plainCell 100 alice (Some "0x3")]
                       [plainCell 50 bob None])
              (builder [plainCell 100 alice (Some "0x3"); deposit5]
                       [plainCell 50 bob None])
              20000001050) as [Hto _].
  - apply perm_swap.
  - apply Permutation_refl.
  - intros k. exact eq_refl.
  - apply Hto. vm_compute. reflexivity.
Defined.

End OrderExamples.

(** * The further properties on the demo chain *)

Section MoreExamples.
#[local] Existing Instance Demo.collaborators.
Import Demo.

Lemma calculateFee_least_witness :
  1001 * 1 <= calculateFee 1001 1 * 1000 ∧ calculateFee 1001 1 <= 2.
Proof.
  destruct (calculateFee_least 1001 1) as [Hcovers Hleast].
  split; [exact Hcovers | apply Hleast; lia].
Defined.

Lemma deposit_withdrawal_discriminant_witness :
  isDAODeposit withdrawal7 = Ok false ∧ isDAOWithdrawal withdrawal7 = Ok true.
Proof.
  destruct (deposit_withdrawal_discriminant withdrawal7) as [_ Hpayload].
  apply Hpayload; reflexivity.
Defined.

Lemma sendTransaction_polls_witness :
  sendTransaction () (scriptedNode ["pending"; "proposed"; "committed"]) 10
  = (inr "0xabc", 3%nat).
Proof.
  destruct (sendTransaction_polls ()
              (scriptedNode ["pending"; "proposed"; "committed"]) 10 "0xabc" eq_refl)
    as (_ & Hsettled & _).
  apply (Hsettled 2%nat).
  - lia.
  - intros [|[|j]] Hj; [by left | by right | lia].
  - intros [Hw|Hw]; discriminate Hw.
Defined.

Lemma knownHeaders_served_from_cache_witness :
  getHeaderByNumber (Some "0x5")
    (Builder_new alice [Header.mk "0x5" "0xold" "0x0" "0x";
                        Header.mk "0x6" "0xsix" "0x0" "0x";
                        Header.mk "0x5" "0xnew" "0x0" "0x"] 1000)
  = (Ok (Header.mk "0x5" "0xnew" "0x0" "0x"),
     Builder_new alice [Header.mk "0x5" "0xold" "0x0" "0x";
                        Header.mk "0x6" "0xsix" "0x0" "0x";
                        Header.mk "0x5" "0xnew" "0x0" "0x"] 1000).
Proof.
  destruct (knownHeaders_served_from_cache alice
              [Header.mk "0x5" "0xold" "0x0" "0x";
               Header.mk "0x6" "0xsix" "0x0" "0x";
               Header.mk "0x5" "0xnew" "0x0" "0x"] 1000 "0x5") as [Hcached _].
  apply Hcached. reflexivity.
Defined.

Lemma add_input_succeeds_iff_witness :
  (add input end_ [plainCell 100 alice (Some "0x4")]
     (builder [plainCell 100 alice (Some "0x3")] [])).1 = Ok () ∧
  (add input end_ []
     (builder [plainCell 100 alice None] [])).1 = Throw MissingBlockNumber.
Proof.
  split.
  - destruct (add_input_succeeds_iff end_ [plainCell 100 alice (Some "0x4")]
                (builder [plainCell 100 alice (Some "0x3")] [])) as [Hiff _].
    apply Hiff. split; repeat constructor.
  - destruct (add_input_succeeds_iff end_ []
                (builder [plainCell 100 alice None] [])) as (_ & _ & Hstuck & _).
    apply Hstuck. intros Hall. inversion Hall as [|? ? Hnone _]. discriminate Hnone.
Defined.

Lemma withdrawedDaoSince_checks_first_witness :
  withdrawedDaoSince deposit5 (builder [] [])
  = (Throw NotAWithdrawalCell, builder [] []).
Proof.
  destruct (withdrawedDaoSince_checks_first deposit5 (builder [] [])) as [Hguard _].
  apply Hguard. vm_compute. discriminate.
Defined.

Lemma addInputSinces_records_witness :
  ∃ inputSinces b',
    addInputSinces (skeleton [plainCell 100 alice (Some "0x3"); withdrawal7] [])
      withdrawedDaoSince (builder [] [])
    = (Ok (TransactionSkeleton.update_inputSinces (λ _, inputSinces)
             (skeleton [plainCell 100 alice (Some "0x3"); withdrawal7] [])), b') ∧
    inputSinces !! 0%nat = None ∧
    inputSinces !! 1%nat = Some 0x2000000000000000.
Proof.
  destruct (addInputSinces_records
              (skeleton [plainCell 100 alice (Some "0x3"); withdrawal7] [])
              (builder [] []) [None; Some 0x2000000000000000])
    as (inputSinces & b' & Hrun & _ & Hat & _).
  - reflexivity.
  - repeat constructor.
  - exists inputSinces, b'. split; [exact Hrun|]. by rewrite !Hat.
Defined.

Lemma buildWithChange_repeatable_witness :
  ∃ r b' b'',
    buildWithChange 7000000000
      (builder [withdrawal7] [plainCell 9000000000 bob None]) = (r, b') ∧
    buildWithChange 7000000000 b' = (r, b'').
Proof.
  destruct (buildWithChange 7000000000
              (builder [withdrawal7] [plainCell 9000000000 bob None]))
    as [r b'] eqn:Hrun.
  destruct (buildWithChange_repeatable _ _ _ _ Hrun) as [Hfilled Hagain].
  destruct (Hagain b' Hfilled) as (b'' & Hrun' & _).
  exists r, b', b''. split; [reflexivity | exact Hrun'].
Defined.

Lemma buildWithChange_well_formed_witness :
  ∃ t b',
    buildWithChange 7000000000
      (builder [withdrawal7; plainCell 100 alice (Some "0x3")]
               [plainCell 9000000000 bob None]) = (Ok t, b') ∧
    length (TransactionSkeleton.witnesses t) = 2%nat ∧
    NoDup (TransactionSkeleton.cellDeps t) ∧
    NoDup (TransactionSkeleton.headerDeps t).
Proof.
  destruct (buildWithChange 7000000000
              (builder [withdrawal7; plainCell 100 alice (Some "0x3")]
                       [plainCell 9000000000 bob None])) as [[t|e] b'] eqn:Hrun.
  - destruct (buildWithChange_well_formed _ _ _ _ Hrun)
      as (Hinputs & Hwitnesses & Hcell & Hheader & _).
    exists t, b'. split; [reflexivity|]. rewrite Hwitnesses, Hinputs. done.
  - exfalso. vm_compute in Hrun. discriminate Hrun.
Defined.

Lemma buildWithChange_errors_witness :
  ∃ b',
    buildWithChange 0 (builder [plainCell 16000000000 alice None] [])
    = (Throw MissingBlockNumber, b') ∧
    ¬ all_numbered [plainCell 16000000000 alice None].
Proof.
  destruct (buildWithChange 0 (builder [plainCell 16000000000 alice None] []))
    as [r b'] eqn:Hrun.
  assert (Hr : r = Throw MissingBlockNumber).
  { apply (f_equal fst) in Hrun. vm_compute in Hrun. congruence. }
  subst r. exists b'. split; [reflexivity|].
  destruct (buildWithChange_errors _ _ _ _ Hrun) as [_ Hmissing].
  apply Hmissing. reflexivity.
Defined.

Lemma toTransactionSkeleton_balances_witness :
  ∃ t fee b',
    toTransactionSkeleton
      (builder [plainCell 16000000000 alice (Some "0x3")]
               [plainCell 9000000000 bob None]) = (Ok (t, fee), b') ∧
    16000000000 = total (map capacityOf (TransactionSkeleton.outputs t)) + fee.
Proof.
  destruct (toTransactionSkeleton
              (builder [plainCell 16000000000 alice (Some "0x3")]
                       [plainCell 9000000000 bob None])) as [[[t fee]|e] b'] eqn:Hrun.
  - destruct (toTransactionSkeleton_balances _ _ _ _ Hrun)
      as (caps & _ & _ & _ & Hcaps & _ & _ & _ & Hbalance & _).
    exists t, fee, b'. split; [reflexivity|].
    vm_compute in Hcaps. injection Hcaps as <-. exact Hbalance.
  - exfalso. vm_compute in Hrun. discriminate Hrun.
Defined.

Lemma buildWithChange_headerDeps_witness :
  ∃ t b',
    buildWithChange 0 (builder [withdrawal7] []) = (Ok t, b') ∧
    hashOf "0x5" ∈ TransactionSkeleton.headerDeps t.
Proof.
  destruct (buildWithChange 0 (builder [withdrawal7] [])) as [[t|e] b'] eqn:Hrun.
  - exists t, b'. split; [reflexivity|].
    apply (buildWithChange_headerDeps _ _ _ _ _ Hrun).
    exists withdrawal7. split; [by left|]. right. split; [reflexivity|].
    exists 5%N. split; reflexivity.
  - exfalso. vm_compute in Hrun. discriminate Hrun.
Defined.

Lemma buildWithChange_deposit_needs_block_0_witness :
  ∃ t b',
    buildWithChange 0 (builder [deposit0; deposit5] []) = (Ok t, b') ∧
    hashOf "0x0" ∈ TransactionSkeleton.headerDeps t.
Proof.
  destruct (buildWithChange 0 (builder [deposit0; deposit5] []))
    as [[t|e] b'] eqn:Hrun.
  - exists t, b'. split; [reflexivity|].
    destruct (buildWithChange_deposit_needs_block_0 _ _ _ _ deposit5 Hrun)
      as (h & Hh & Hin).
    + right. by left.
    + reflexivity.
    + vm_compute in Hh. by injection Hh as <-.
  - exfalso. vm_compute in Hrun. discriminate Hrun.
Defined.


End MoreExamples.
